(** * Shellforge: the pipeline parser, the alias expander, the process
      pipeline and the job table of [demoshellforge.py], embedded in Rocq.

    Python strings are [string]s whose characters are code points below
    256; a Python [dict] is an insertion-ordered association list, since
    the order of [items()] is what the job listing prints; the operating
    system is a [Host] of oracles together with a mutable [World]; every
    method of [UnixShell] is a computation in a state-and-exception monad
    in which the mutations made before a raise survive it, as they do in
    Python. *)

From Stdlib Require Import List String Ascii ZArith Lia Bool Sorted.
From Stdlib Require Import DecimalString.
Import ListNotations.
Local Open Scope string_scope.
Local Open Scope Z_scope.

(** ** Python string primitives *)

Module PyStr.

(** [str.isspace] on one code point below 256. *)
Definition is_space (c : ascii) : bool :=
  let n := N.to_nat (N_of_ascii c) in
  (((9 <=? n) && (n <=? 13)) || ((28 <=? n) && (n <=? 32))
   || (n =? 133) || (n =? 160))%nat.

(** [s.lstrip()] *)
Fixpoint lstrip (s : string) : string :=
  match s with
  | EmptyString => EmptyString
  | String c s' => if is_space c then lstrip s' else s
  end.

(** [s.rstrip()] *)
Fixpoint rstrip (s : string) : string :=
  match s with
  | EmptyString => EmptyString
  | String c s' =>
      match rstrip s' with
      | EmptyString => if is_space c then EmptyString else String c EmptyString
      | r => String c r
      end
  end.

(** [s.strip()] *)
Definition strip (s : string) : string := rstrip (lstrip s).

(** [s.strip(chars)]: the characters to remove are those [p] accepts. *)
Fixpoint lstrip_by (p : ascii -> bool) (s : string) : string :=
  match s with
  | EmptyString => EmptyString
  | String c s' => if p c then lstrip_by p s' else s
  end.

Fixpoint rstrip_by (p : ascii -> bool) (s : string) : string :=
  match s with
  | EmptyString => EmptyString
  | String c s' =>
      match rstrip_by p s' with
      | EmptyString => if p c then EmptyString else String c EmptyString
      | r => String c r
      end
  end.

Definition strip_by (p : ascii -> bool) (s : string) : string :=
  rstrip_by p (lstrip_by p s).

(** [s.split(sep, 1)] for a one-character separator that occurs in [s]:
    the text before its first occurrence and the text after it. *)
Fixpoint split_once (sep : ascii) (s : string) : string * string :=
  match s with
  | EmptyString => (EmptyString, EmptyString)
  | String c s' =>
      if Ascii.eqb c sep then (EmptyString, s')
      else let '(a, b) := split_once sep s' in (String c a, b)
  end.

(** [s.endswith(c)] for a one-character suffix. *)
Fixpoint endswith (c : ascii) (s : string) : bool :=
  match s with
  | EmptyString => false
  | String d EmptyString => Ascii.eqb d c
  | String _ s' => endswith c s'
  end.

(** [s[:-1]] *)
Fixpoint drop_last (s : string) : string :=
  match s with
  | EmptyString => EmptyString
  | String _ EmptyString => EmptyString
  | String c s' => String c (drop_last s')
  end.

(** [c in s] for a one-character needle. *)
Fixpoint contains (c : ascii) (s : string) : bool :=
  match s with
  | EmptyString => false
  | String d s' => Ascii.eqb d c || contains c s'
  end.

(** [s.split(sep)] for a one-character separator: every occurrence of
    the separator cuts, and the result is never empty. *)
Fixpoint split (sep : ascii) (s : string) : list string :=
  match s with
  | EmptyString => [EmptyString]
  | String c s' =>
      if Ascii.eqb c sep then EmptyString :: split sep s'
      else match split sep s' with
           | p :: ps => String c p :: ps
           | [] => [String c EmptyString]
           end
  end.

(** [s.split()]: the maximal runs of non-whitespace characters. [tok] is
    the run being read. *)
Fixpoint words_from (tok : string) (s : string) : list string :=
  match s with
  | EmptyString => match tok with EmptyString => [] | _ => [tok] end
  | String c s' =>
      if is_space c then
        match tok with
        | EmptyString => words_from EmptyString s'
        | _ => tok :: words_from EmptyString s'
        end
      else words_from (tok ++ String c EmptyString) s'
  end.

Definition words (s : string) : list string := words_from EmptyString s.

(** [sep.join(l)] *)
Fixpoint join (sep : string) (l : list string) : string :=
  match l with
  | [] => EmptyString
  | [x] => x
  | x :: rest => x ++ sep ++ join sep rest
  end.

(** [str(n)] for an integer. *)
Definition of_Z (n : Z) : string := NilZero.string_of_int (Z.to_int n).

(** [f"{n:4d}"]: right-aligned in a field of four. *)
Definition of_Z_width4 (n : Z) : string :=
  let s := of_Z n in
  let fix pad (k : nat) : string :=
    match k with
    | O => EmptyString
    | S k' => String " " (pad k')
    end in
  pad (4 - String.length s)%nat ++ s.

(** The digit value of a code point, ASCII digits only. *)
Definition digit_of (c : ascii) : option Z :=
  let n := Z.of_N (N_of_ascii c) in
  if (48 <=? n) && (n <=? 57) then Some (n - 48) else None.

(** The whitespace [int()] skips around a literal: the ASCII whitespace
    of C, and the whitespace above 127, which it first turns into
    blanks. Code points 28 to 31 are whitespace for [str.isspace] but
    not here. *)
Definition is_int_space (c : ascii) : bool :=
  let n := N.to_nat (N_of_ascii c) in
  (((9 <=? n) && (n <=? 13)) || (n =? 32) || (n =? 133) || (n =? 160))%nat.

(** The run of digits and underscores at the head of an [int] literal:
    its value, the number of its digits and what follows it. [None]
    when the run is empty or an underscore leads, trails or is doubled.
    [prev_digit] tells whether the previous character was a digit. *)
Fixpoint digit_run (acc : Z) (count : nat) (prev_digit : bool) (s : string)
  : option (Z * nat * string) :=
  match s with
  | EmptyString => if prev_digit then Some (acc, count, EmptyString) else None
  | String c s' =>
      match digit_of c with
      | Some d => digit_run (10 * acc + d) (S count) true s'
      | None =>
          if Ascii.eqb c "_"%char then
            if prev_digit then digit_run acc count false s' else None
          else if prev_digit then Some (acc, count, s) else None
      end
  end.

(** The three outcomes of [int(s)]: a value, the [ValueError] for an
    invalid literal, and the [ValueError] for a literal of more digits
    than the interpreter converts (4300 unless reconfigured). *)
Inductive int_result :=
  | IntOk (n : Z)
  | IntInvalid
  | IntTooLong (digits : nat).

(** [int(s)] in base 10: surrounding whitespace, one optional sign, a
    run of digits, nothing else. The limit on the number of digits is
    checked once the run has been read, before what follows it is. *)
Definition parse_int (s : string) : int_result :=
  let t := strip_by is_int_space s in
  let '(negative, body) :=
    match t with
    | String "-" r => (true, r)
    | String "+" r => (false, r)
    | _ => (false, t)
    end in
  match digit_run 0 0 false body with
  | None => IntInvalid
  | Some (v, count, rest) =>
      if (4300 <? count)%nat then IntTooLong count
      else match rest with
           | EmptyString => IntOk (if negative then - v else v)
           | _ => IntInvalid
           end
  end.

(** [int(s)], with [None] for [ValueError]. *)
Definition to_Z (s : string) : option Z :=
  match parse_int s with
  | IntOk n => Some n
  | _ => None
  end.

(** [str.isprintable] on one code point below 256. *)
Definition is_printable (c : ascii) : bool :=
  let n := N.to_nat (N_of_ascii c) in
  negb ((n <? 32) || (n =? 127) || ((128 <=? n) && (n <=? 160)) || (n =? 173))%nat.

Definition hex_digit (n : nat) : ascii :=
  ascii_of_nat (if (n <? 10)%nat then 48 + n else 87 + n).

(** One character as [repr] writes it between quotes [q]. *)
Definition repr_char (q : ascii) (c : ascii) : string :=
  let n := N.to_nat (N_of_ascii c) in
  if Ascii.eqb c q || Ascii.eqb c (ascii_of_nat 92)
  then String (ascii_of_nat 92) (String c EmptyString)
  else if (n =? 9)%nat then String (ascii_of_nat 92) "t"
  else if (n =? 10)%nat then String (ascii_of_nat 92) "n"
  else if (n =? 13)%nat then String (ascii_of_nat 92) "r"
  else if is_printable c then String c EmptyString
  else String (ascii_of_nat 92)
         (String "x" (String (hex_digit (n / 16))
                        (String (hex_digit (n mod 16)) EmptyString))).

Fixpoint repr_body (q : ascii) (s : string) : string :=
  match s with
  | EmptyString => EmptyString
  | String c s' => repr_char q c ++ repr_body q s'
  end.

(** [repr(s)]: single quotes, unless the string has single quotes and no
    double quote. *)
Definition repr (s : string) : string :=
  let q := if contains "'" s && negb (contains (ascii_of_nat 34) s)
           then ascii_of_nat 34 else "'"%char in
  String q (repr_body q s) ++ String q EmptyString.

(** [str(e)] for the [ValueError] of [int(s)], as Python 3.11 words it:
    the literal is shown by the first 200 characters of its [repr]. *)
Definition int_error (s : string) : string :=
  match parse_int s with
  | IntTooLong k =>
      "Exceeds the limit (4300 digits) for integer string conversion: "
      ++ "value has " ++ of_Z (Z.of_nat k)
      ++ " digits; use sys.set_int_max_str_digits() to increase the limit"
  | _ =>
      "invalid literal for int() with base 10: " ++ substring 0 200 (repr s)
  end.

End PyStr.

Arguments PyStr.int_error s : simpl never.
Arguments PyStr.parse_int s : simpl never.
Arguments PyStr.repr s : simpl never.

(** ** Insertion-ordered dictionaries *)

Module Dict.
Section Dict.
Context {K V : Type}.
Variable eqb : K -> K -> bool.

Definition t := list (K * V).

(** [d.get(k)] *)
Fixpoint get (k : K) (d : list (K * V)) : option V :=
  match d with
  | [] => None
  | (k', v) :: d' => if eqb k' k then Some v else get k d'
  end.

(** [k in d] *)
Definition mem (k : K) (d : list (K * V)) : bool :=
  match get k d with Some _ => true | None => false end.

(** [d[k] = v]: an existing key keeps its position, a new one goes last. *)
Fixpoint set (k : K) (v : V) (d : list (K * V)) : list (K * V) :=
  match d with
  | [] => [(k, v)]
  | (k', v') :: d' =>
      if eqb k' k then (k', v) :: d' else (k', v') :: set k v d'
  end.

(** [del d[k]] for a key that is present. *)
Fixpoint del (k : K) (d : list (K * V)) : list (K * V) :=
  match d with
  | [] => []
  | (k', v') :: d' => if eqb k' k then d' else (k', v') :: del k d'
  end.

Definition keys (d : list (K * V)) : list K := map fst d.
End Dict.
End Dict.

(** ** PipelineParser and AliasExpander *)

(** [commands = [cmd.strip().split() for cmd in command_line.split("|")]] *)
Definition stages (command_line : string) : list (list string) :=
  map (fun cmd => PyStr.words (PyStr.strip cmd)) (PyStr.split "|" command_line).

(** The line once trimmed and freed of its background marker, with the
    flag: the first statements of [parse_command]. *)
Definition strip_background (command_line : string) : string * bool :=
  let command_line := PyStr.strip command_line in
  let background := PyStr.endswith "&" command_line in
  if background then (PyStr.strip (PyStr.drop_last command_line), true)
  else (command_line, false).

(** [UnixShell.parse_command] *)
Definition parse_command (command_line : string)
  : list (list string) * bool * option string :=
  let '(command_line, background) := strip_background command_line in
  let '(command_line, redirect_file) :=
    if PyStr.contains ">" command_line then
      let parts := PyStr.split ">" command_line in
      (PyStr.strip (nth 0 parts EmptyString),
       Some (PyStr.strip (nth 1 parts EmptyString)))
    else (command_line, None) in
  (stages command_line, background, redirect_file).

(** [UnixShell.expand_aliases], over the alias dictionary. *)
Definition expand_aliases (aliases : list (string * string))
    (command : list string) : list string :=
  match command with
  | c :: rest =>
      match Dict.get String.eqb c aliases with
      | Some v => PyStr.words v ++ rest
      | None => command
      end
  | [] => command
  end.

(** The aliases [UnixShell.__init__] seeds. *)
Definition default_aliases : list (string * string) :=
  [("ll", "ls -la"); ("la", "ls -a"); ("l", "ls -CF")].

(** ** Exceptions, the operating system, and the shell's state *)

(** The exception classes the shell can meet. [OSError] stands for the
    subclasses of [OSError] that are not listed on their own. *)
Inductive exn_class :=
  | IndexError | ValueError | OverflowError | UnicodeDecodeError
  | FileNotFoundError | NotADirectoryError | IsADirectoryError
  | PermissionError | ProcessLookupError | OSError
  | EOFError | KeyboardInterrupt | SystemExit.

(** A raised exception: its class and [str(e)]. *)
Record exn := Exn { exn_cls : exn_class; exn_str : string }.

Definition exn_class_eqb (a b : exn_class) : bool :=
  match a, b with
  | IndexError, IndexError | ValueError, ValueError
  | OverflowError, OverflowError | UnicodeDecodeError, UnicodeDecodeError
  | FileNotFoundError, FileNotFoundError
  | NotADirectoryError, NotADirectoryError
  | IsADirectoryError, IsADirectoryError
  | PermissionError, PermissionError
  | ProcessLookupError, ProcessLookupError | OSError, OSError
  | EOFError, EOFError | KeyboardInterrupt, KeyboardInterrupt
  | SystemExit, SystemExit => true
  | _, _ => false
  end.

(** [isinstance(e, Exception)]: everything but the two classes that
    derive from [BaseException] directly. *)
Definition is_Exception (e : exn) : bool :=
  match exn_cls e with
  | KeyboardInterrupt | SystemExit => false
  | _ => true
  end.

(** What the machine outside the shell answers: which programs can be
    started, which files opened, which directories entered, which
    processes signalled, and what a child leaves behind. *)
Record Host := {
  (** the exception [subprocess.Popen] raises for a non-empty argv
      started in a directory, if any *)
  popen_error : list string -> string -> option exn;
  (** the exception [open(path, "w")] raises, if any *)
  open_error : string -> option exn;
  (** [os.chdir(path)]: the exception, or the directory [os.getcwd()]
      reports afterwards *)
  chdir_result : string -> exn + string;
  (** the exception [os.kill(pid, SIGTERM)] raises, if any *)
  kill_error : Z -> option exn;
  (** the return code a child has once waited for *)
  exit_status : Z -> Z;
  (** what a child wrote to its captured streams, decoded, or the
      decoding error *)
  stdout_data : Z -> exn + string;
  stderr_data : Z -> exn + string;
  (** the home directory of the password database *)
  pw_dir : string;
  (** the environment and directory the shell starts in *)
  initial_environ : list (string * string);
  initial_cwd : string
}.

(** The mutable part of the operating system: each child's return code
    ([None] while it runs), the next process id, the working directory
    and [os.environ]. *)
Record World := {
  procs : list (Z * option Z);
  next_pid : Z;
  cwd : string;
  environ : list (string * string)
}.

(** [subprocess.Popen]: the child's process id and whether its standard
    output is a pipe held by the shell. *)
Record Popen := { pid : Z; stdout_piped : bool }.

(** [class Job]; [start_time], a clock reading, is left out. *)
Record Job := {
  job_id : Z;
  command : string;
  process : Popen;
  status : string
}.

(** [class UnixShell] *)
Record UnixShell := {
  jobs : list (Z * Job);
  job_counter : Z;
  history : list string;
  aliases : list (string * string);
  environment : list (string * string);
  current_dir : string
}.

(** What the shell does to the outside, in order. *)
Inductive event :=
  | Stdout (text : string)
  | Stderr (text : string)
  | Spawned (argv : list string) (p : Z)
  | Waited (p : Z)
  | Signalled (p : Z)
  | ClosedPipe (p : Z)
  | Opened (path : string)
  | ClosedFile (path : string).

Record Machine := {
  shell : UnixShell;
  world : World;
  trace : list event
}.

(** ** The monad of shell methods

    A method takes the machine and gives back a value or a raised
    exception, with the machine as the method left it. *)

Definition M (A : Type) : Type := Machine -> (exn + A) * Machine.

Definition ret {A} (a : A) : M A := fun m => (inr a, m).

Definition raise {A} (e : exn) : M A := fun m => (inl e, m).

Definition bind {A B} (c : M A) (k : A -> M B) : M B :=
  fun m =>
    match c m with
    | (inr a, m') => k a m'
    | (inl e, m') => (inl e, m')
    end.

Notation "x <- c ;; k" := (bind c (fun x => k))
  (at level 61, c at next level, right associativity).
Notation "c ;;; k" := (bind c (fun _ => k))
  (at level 61, right associativity).

(** [try: c  except <classes h accepts>: h e]: a handler that answers
    [None] lets the exception through. *)
Definition try_except {A} (c : M A) (h : exn -> option (M A)) : M A :=
  fun m =>
    match c m with
    | (inl e, m') =>
        match h e with
        | Some k => k m'
        | None => (inl e, m')
        end
    | r => r
    end.

(** [for x in l: body x] *)
Fixpoint for_each {A} (l : list A) (body : A -> M unit) : M unit :=
  match l with
  | [] => ret tt
  | x :: l' => body x ;;; for_each l' body
  end.

Definition get_shell : M UnixShell := fun m => (inr (shell m), m).
Definition get_world : M World := fun m => (inr (world m), m).

Definition put_shell (s : UnixShell) : M unit :=
  fun m => (inr tt, {| shell := s; world := world m; trace := trace m |}).

Definition put_world (w : World) : M unit :=
  fun m => (inr tt, {| shell := shell m; world := w; trace := trace m |}).

Definition emit (e : event) : M unit :=
  fun m =>
    (inr tt, {| shell := shell m; world := world m; trace := (trace m ++ [e])%list |}).

Definition newline : string := String (ascii_of_nat 10) EmptyString.

(** [print(s)] and [print(s, end=<empty>)], on either stream. *)
Definition print (s : string) : M unit := emit (Stdout (s ++ newline)).
Definition print_raw (s : string) : M unit := emit (Stdout s).
Definition eprint_raw (s : string) : M unit := emit (Stderr s).

(** ** Processes and files *)

Section Shell.

Variable host : Host.

(** [Popen.poll()]: the return code if the child has ended, without
    blocking. A process id the world does not know counts as running;
    every handle the shell holds comes from [popen], which records it. *)
Definition poll (w : World) (p : Popen) : option Z :=
  match Dict.get Z.eqb (pid p) (procs w) with
  | Some rc => rc
  | None => None
  end.

(** [Job.is_running] *)
Definition is_running (w : World) (job : Job) : bool :=
  match poll w (process job) with
  | None => true
  | Some _ => false
  end.

(** [Job.get_status] *)
Definition get_status (w : World) (job : Job) : string :=
  if is_running w job then "running"
  else match poll w (process job) with
       | Some rc => "done (" ++ PyStr.of_Z rc ++ ")"
       | None => "done (None)"
       end.

(** [subprocess.Popen(argv, ...)]: an empty argv has no program name to
    index; otherwise the host decides, and a child that starts gets the
    next process id and runs. *)
Definition popen (argv : list string) (piped : bool) : M Popen :=
  match argv with
  | [] => raise (Exn IndexError "list index out of range")
  | _ =>
      sh <- get_shell ;;
      match popen_error host argv (current_dir sh) with
      | Some e => raise e
      | None =>
          w <- get_world ;;
          let p := next_pid w in
          put_world {| procs := Dict.set Z.eqb p None (procs w);
                       next_pid := p + 1;
                       cwd := cwd w;
                       environ := environ w |} ;;;
          emit (Spawned argv p) ;;;
          ret {| pid := p; stdout_piped := piped |}
      end
  end.

(** [Popen.wait()]: blocks until the child has ended. *)
Definition wait (p : Popen) : M Z :=
  w <- get_world ;;
  emit (Waited (pid p)) ;;;
  match poll w p with
  | Some rc => ret rc
  | None =>
      let rc := exit_status host (pid p) in
      put_world {| procs := Dict.set Z.eqb (pid p) (Some rc) (procs w);
                   next_pid := next_pid w;
                   cwd := cwd w;
                   environ := environ w |} ;;;
      ret rc
  end.

(** [os.kill(n, signal.SIGTERM)] *)
Definition os_kill (n : Z) : M unit :=
  match kill_error host n with
  | Some e => raise e
  | None => emit (Signalled n)
  end.

(** [Popen.terminate()]: nothing for a child known to have ended; a
    child that is already gone is not an error. *)
Definition terminate (p : Popen) : M unit :=
  w <- get_world ;;
  match poll w p with
  | Some _ => ret tt
  | None =>
      try_except (os_kill (pid p))
        (fun e => match exn_cls e with
                  | ProcessLookupError => Some (ret tt)
                  | _ => None
                  end)
  end.

(** [stdout_data.decode()], [stderr_data.decode()] after
    [Popen.communicate()]: [None] for a stream that is not a pipe. *)
Definition decoded (d : exn + string) : M string :=
  match d with
  | inl e => raise e
  | inr s => ret s
  end.

(** [open(path, "w")] *)
Definition open_w (path : string) : M unit :=
  match open_error host path with
  | Some e => raise e
  | None => emit (Opened path)
  end.

(** A redirect target that counts as given: [if redirect_file]. *)
Definition truthy (redirect_file : option string) : option string :=
  match redirect_file with
  | Some EmptyString => None
  | r => r
  end.

(** ** The job table *)

Definition with_jobs (sh : UnixShell) (js : list (Z * Job)) : UnixShell :=
  {| jobs := js; job_counter := job_counter sh; history := history sh;
     aliases := aliases sh; environment := environment sh;
     current_dir := current_dir sh |}.

(** [del self.jobs[jid]] *)
Definition del_job (jid : Z) : M unit :=
  sh <- get_shell ;;
  put_shell (with_jobs sh (Dict.del Z.eqb jid (jobs sh))).

(** The four statements that make a job of a started process, as they
    stand in [execute_pipeline] and in [execute_pipeline_chain]:
    [[
      job = Job(self.job_counter, label, process)
      self.jobs[self.job_counter] = job
      print(f"[{self.job_counter}] {process.pid}")
      self.job_counter += 1
    ]] *)
Definition register (label : string) (p : Popen) : M unit :=
  sh <- get_shell ;;
  let job := {| job_id := job_counter sh; command := label;
                process := p; status := "running" |} in
  put_shell (with_jobs sh (Dict.set Z.eqb (job_counter sh) job (jobs sh))) ;;;
  print ("[" ++ PyStr.of_Z (job_counter sh) ++ "] " ++ PyStr.of_Z (pid p)) ;;;
  sh <- get_shell ;;
  put_shell {| jobs := jobs sh; job_counter := job_counter sh + 1;
               history := history sh; aliases := aliases sh;
               environment := environment sh;
               current_dir := current_dir sh |}.

(** [[jid for jid, job in self.jobs.items() if not job.is_running()]] *)
Definition completed (w : World) (js : list (Z * Job)) : list Z :=
  map fst (filter (fun e => negb (is_running w (snd e))) js).

(** The line [show_jobs] prints for one entry. *)
Definition job_line (w : World) (e : Z * Job) : string :=
  "[" ++ PyStr.of_Z (fst e) ++ "]  " ++ get_status w (snd e)
      ++ "    " ++ command (snd e).

(** [UnixShell.show_jobs] *)
Definition show_jobs : M unit :=
  sh <- get_shell ;;
  match jobs sh with
  | [] => ret tt
  | _ =>
      w <- get_world ;;
      for_each (jobs sh) (fun e => print (job_line w e)) ;;;
      sh <- get_shell ;;
      w <- get_world ;;
      for_each (completed w (jobs sh)) del_job
  end.

(** [max(self.jobs.keys())] for a table that is not empty. *)
Definition max_key (js : list (Z * Job)) : Z :=
  match Dict.keys js with
  | [] => 0
  | k :: ks => fold_left Z.max ks k
  end.

(** [UnixShell.foreground_job] *)
Definition foreground_job (args : list string) : M unit :=
  sh <- get_shell ;;
  let target : string + Z :=
    match args with
    | [] =>
        match jobs sh with
        | [] => inl "fg: no current job"
        | _ => inr (max_key (jobs sh))
        end
    | a :: _ =>
        match PyStr.to_Z a with
        | Some n => inr n
        | None => inl "fg: invalid job number"
        end
    end in
  match target with
  | inl complaint => print complaint
  | inr job_id =>
      match Dict.get Z.eqb job_id (jobs sh) with
      | None => print ("fg: job " ++ PyStr.of_Z job_id ++ " not found")
      | Some job =>
          w <- get_world ;;
          if is_running w job then
            try_except
              (wait (process job) ;;; del_job job_id)
              (fun e => match exn_cls e with
                        | KeyboardInterrupt => Some (print "^C")
                        | _ => None
                        end)
          else ret tt
      end
  end.

(** [UnixShell.background_job] *)
Definition background_job (args : list string) : M unit :=
  print "bg: job control not fully implemented".

(** [UnixShell.kill_job] *)
Definition kill_job (args : list string) : M unit :=
  match args with
  | [] => print "kill: usage: kill job_id"
  | a :: _ =>
      try_except
        (match PyStr.to_Z a with
         | None => raise (Exn ValueError (PyStr.int_error a))
         | Some job_id =>
             sh <- get_shell ;;
             match Dict.get Z.eqb job_id (jobs sh) with
             | Some job =>
                 terminate (process job) ;;;
                 print ("[" ++ PyStr.of_Z job_id ++ "] Terminated: "
                            ++ command job) ;;;
                 del_job job_id
             | None =>
                 os_kill job_id ;;;
                 print ("Process " ++ PyStr.of_Z job_id ++ " terminated")
             end
         end)
        (fun e => match exn_cls e with
                  | ValueError | ProcessLookupError | PermissionError =>
                      Some (print ("kill: " ++ exn_str e))
                  | _ => None
                  end)
  end.

(** [UnixShell.show_history] *)
Fixpoint show_history_from (i : Z) (h : list string) : M unit :=
  match h with
  | [] => ret tt
  | cmd :: h' =>
      print (PyStr.of_Z_width4 i ++ "  " ++ cmd) ;;;
      show_history_from (i + 1) h'
  end.

Definition show_history : M unit :=
  sh <- get_shell ;; show_history_from 1 (history sh).

Definition is_quote (c : ascii) : bool :=
  Ascii.eqb c "'"%char || Ascii.eqb c (ascii_of_nat 34).

Definition alias_line (name value : string) : string :=
  "alias " ++ name ++ "='" ++ value ++ "'".

(** [UnixShell.handle_alias] *)
Definition handle_alias (args : list string) : M unit :=
  sh <- get_shell ;;
  match args with
  | [] => for_each (aliases sh) (fun e => print (alias_line (fst e) (snd e)))
  | a :: _ =>
      if PyStr.contains "=" a then
        let '(name, value) := PyStr.split_once "=" a in
        put_shell {| jobs := jobs sh; job_counter := job_counter sh;
                     history := history sh;
                     aliases := Dict.set String.eqb name
                                  (PyStr.strip_by is_quote value) (aliases sh);
                     environment := environment sh;
                     current_dir := current_dir sh |}
      else
        match Dict.get String.eqb a (aliases sh) with
        | Some value => print (alias_line a value)
        | None => ret tt
        end
  end.

Definition with_environment (sh : UnixShell) (env : list (string * string))
  : UnixShell :=
  {| jobs := jobs sh; job_counter := job_counter sh; history := history sh;
     aliases := aliases sh; environment := env;
     current_dir := current_dir sh |}.

Definition with_environ (w : World) (env : list (string * string)) : World :=
  {| procs := procs w; next_pid := next_pid w; cwd := cwd w; environ := env |}.

(** What [os.environ[name] = value] raises, if anything: a null byte in
    either string, a name with [=], and the empty name, which the C
    library refuses. *)
Definition putenv_error (name value : string) : option exn :=
  if PyStr.contains (ascii_of_nat 0) name
     || PyStr.contains (ascii_of_nat 0) value
  then Some (Exn ValueError "embedded null byte")
  else if PyStr.contains "=" name
  then Some (Exn ValueError "illegal environment variable name")
  else match name with
       | EmptyString => Some (Exn OSError "[Errno 22] Invalid argument")
       | _ => None
       end.

(** [UnixShell.handle_export]: the shell's own environment is written
    first, the process environment after it. *)
Definition handle_export (args : list string) : M unit :=
  for_each args (fun arg =>
    sh <- get_shell ;;
    if PyStr.contains "=" arg then
      let '(name, value) := PyStr.split_once "=" arg in
      put_shell (with_environment sh
                   (Dict.set String.eqb name value (environment sh))) ;;;
      match putenv_error name value with
      | Some e => raise e
      | None =>
          w <- get_world ;;
          put_world (with_environ w
                       (Dict.set String.eqb name value (environ w)))
      end
    else
      match Dict.get String.eqb arg (environment sh) with
      | Some value => print (arg ++ "=" ++ value)
      | None => ret tt
      end).

(** [os.path.expanduser("~")] *)
Definition expanduser_home (w : World) : string :=
  let userhome :=
    match Dict.get String.eqb "HOME" (environ w) with
    | Some h => h
    | None => pw_dir host
    end in
  match PyStr.rstrip_by (Ascii.eqb "/") userhome with
  | EmptyString => "/"
  | h => h
  end.

(** [os.chdir(path)] followed by the two assignments of [cd]. *)
Definition chdir (path : string) : M unit :=
  match chdir_result host path with
  | inl e => raise e
  | inr dir =>
      w <- get_world ;;
      put_world {| procs := procs w; next_pid := next_pid w; cwd := dir;
                   environ := environ w |} ;;;
      sh <- get_shell ;;
      put_shell {| jobs := jobs sh; job_counter := job_counter sh;
                   history := history sh; aliases := aliases sh;
                   environment := environment sh; current_dir := dir |} ;;;
      sh <- get_shell ;;
      put_shell (with_environment sh
                   (Dict.set String.eqb "PWD" dir (environment sh)))
  end.

(** The [cd] branch of [execute_builtin]. *)
Definition builtin_cd (args : list string) : M unit :=
  try_except
    (w <- get_world ;;
     let path := match args with a :: _ => a | [] => expanduser_home w end in
     chdir path)
    (fun e => match exn_cls e with
              | IndexError | FileNotFoundError =>
                  Some (print ("cd: "
                                 ++ match args with a :: _ => a | [] => "~" end
                                 ++ ": No such file or directory"))
              | _ => None
              end).

(** [UnixShell.execute_builtin]: [true] when the command was a built-in
    and has been carried out. *)
Definition execute_builtin (command : list string) : M bool :=
  match command with
  | [] => ret true
  | cmd :: args =>
      if String.eqb cmd "cd" then builtin_cd args ;;; ret true
      else if String.eqb cmd "pwd" then
        (w <- get_world ;; print (cwd w)) ;;; ret true
      else if String.eqb cmd "jobs" then show_jobs ;;; ret true
      else if String.eqb cmd "fg" then foreground_job args ;;; ret true
      else if String.eqb cmd "bg" then background_job args ;;; ret true
      else if String.eqb cmd "kill" then kill_job args ;;; ret true
      else if String.eqb cmd "history" then show_history ;;; ret true
      else if String.eqb cmd "alias" then handle_alias args ;;; ret true
      else if String.eqb cmd "export" then handle_export args ;;; ret true
      else if String.eqb cmd "exit" then
        print "Goodbye!" ;;; raise (Exn SystemExit "0")
      else ret false
  end.

(** ** ProcessPipeline *)

(** [print(data.decode(), end=<empty>)] guarded by [if data], for a
    captured stream: an empty capture prints nothing. *)
Definition emit_captured (to_stderr : bool) (d : exn + string) : M unit :=
  match d with
  | inr EmptyString => ret tt
  | _ =>
      s <- decoded d ;;
      if to_stderr then eprint_raw s else print_raw s
  end.

(** The single-command branch of [execute_pipeline], after the built-in
    check: the body of its [try]. *)
Definition run_single (command : list string) (background : bool)
    (redirect_file : option string) : M unit :=
  match truthy redirect_file with
  | Some path => open_w path
  | None => ret tt
  end ;;;
  process <- popen command
               (match truthy redirect_file with Some _ => false | None => true end) ;;
  (if background then register (PyStr.join " " command) process
   else
     wait process ;;;
     (if stdout_piped process
      then emit_captured false (stdout_data host (pid process))
      else ret tt) ;;;
     emit_captured true (stderr_data host (pid process))) ;;;
  match truthy redirect_file with
  | Some path => emit (ClosedFile path)
  | None => ret tt
  end.

(** The loop of [execute_pipeline_chain]: stage [i] of [n], with the
    processes started so far, oldest first. *)
Fixpoint spawn_stages (n i : nat) (commands : list (list string))
    (redirect_file : option string) (processes : list Popen)
  : M (list Popen) :=
  match commands with
  | [] => ret processes
  | command :: rest =>
      sh <- get_shell ;;
      let command := expand_aliases (aliases sh) command in
      let final := (i =? n - 1)%nat in
      (match final, truthy redirect_file with
       | true, Some path => open_w path
       | _, _ => ret tt
       end) ;;;
      process <- popen command (negb final) ;;
      (match i, last (map Some processes) None with
       | S _, Some prev => emit (ClosedPipe (pid prev))
       | S _, None => raise (Exn IndexError "list index out of range")
       | O, _ => ret tt
       end) ;;;
      spawn_stages n (S i) rest redirect_file (processes ++ [process])%list
  end.

(** The label of a background pipeline: the stages as typed, before any
    alias is expanded. *)
Definition pipeline_label (commands : list (list string)) : string :=
  PyStr.join " | " (map (PyStr.join " ") commands).

(** [UnixShell.execute_pipeline_chain] *)
Definition execute_pipeline_chain (commands : list (list string))
    (background : bool) (redirect_file : option string) : M unit :=
  try_except
    (processes <- spawn_stages (List.length commands) 0 commands redirect_file [] ;;
     if background then
       match last (map Some processes) None with
       | Some p => register (pipeline_label commands) p
       | None => raise (Exn IndexError "list index out of range")
       end
     else
       for_each processes (fun p => wait p ;;; ret tt) ;;;
       match truthy redirect_file with
       | Some _ => ret tt
       | None =>
           match last (map Some processes) None with
           | Some p =>
               wait p ;;;
               (if stdout_piped p
                then emit_captured false (stdout_data host (pid p))
                else ret tt) ;;;
               emit_captured true (stderr_data host (pid p))
           | None => raise (Exn IndexError "list index out of range")
           end
       end)
    (fun e => if is_Exception e
              then Some (print ("Pipeline error: " ++ exn_str e))
              else None).

(** [UnixShell.execute_pipeline] *)
Definition execute_pipeline (commands : list (list string))
    (background : bool) (redirect_file : option string) : M unit :=
  match commands with
  | [c] =>
      sh <- get_shell ;;
      let command := expand_aliases (aliases sh) c in
      handled <- execute_builtin command ;;
      if handled then ret tt
      else
        try_except (run_single command background redirect_file)
          (fun e =>
             match exn_cls e with
             | FileNotFoundError =>
                 Some (print (hd EmptyString command ++ ": command not found"))
             | _ =>
                 if is_Exception e
                 then Some (print ("Error executing command: " ++ exn_str e))
                 else None
             end)
  | _ => execute_pipeline_chain commands background redirect_file
  end.

(** ** ShellLoop *)

(** [self.history.append(line)] on a [deque(maxlen=1000)] *)
Definition history_append (line : string) : M unit :=
  sh <- get_shell ;;
  let h := (history sh ++ [line])%list in
  put_shell {| jobs := jobs sh; job_counter := job_counter sh;
               history := if (1000 <? List.length h)%nat then tl h else h;
               aliases := aliases sh; environment := environment sh;
               current_dir := current_dir sh |}.

(** The reaping at the top of each turn of [run]. *)
Definition reap_finished : M unit :=
  sh <- get_shell ;;
  w <- get_world ;;
  for_each (filter (fun e => negb (is_running w (snd e))) (jobs sh))
    (fun e => print ("[" ++ PyStr.of_Z (fst e) ++ "] Done: "
                         ++ command (snd e))) ;;;
  for_each (completed w (jobs sh)) del_job.

(** What follows [input] in one turn of the loop. *)
Definition dispatch (command_line : string) : M unit :=
  match PyStr.strip command_line with
  | EmptyString => ret tt
  | _ =>
      history_append command_line ;;;
      let '(commands, background, redirect_file) :=
        parse_command command_line in
      execute_pipeline commands background redirect_file
  end.

(** What reaches the shell from outside while it runs: a line typed, an
    interrupt raised out of [input], or a child ending on its own. The
    end of the list is the end of the input. *)
Inductive env_event :=
  | EvLine (line : string)
  | EvInterrupt
  | EvChildExit (p rc : Z).

Definition child_exit (p rc : Z) (m : Machine) : Machine :=
  let w := world m in
  match Dict.get Z.eqb p (procs w) with
  | Some None =>
      {| shell := shell m;
         world := {| procs := Dict.set Z.eqb p (Some rc) (procs w);
                     next_pid := next_pid w; cwd := cwd w;
                     environ := environ w |};
         trace := trace m |}
  | _ => m
  end.

(** How the shell process ends: by leaving [run], or with an exception
    that nothing caught. [SystemExit] ends it with its code. *)
Inductive outcome :=
  | Exited (code : Z)
  | Uncaught (e : exn).

(** [UnixShell.run] after its banner: the [try] of each turn wraps the
    reaping, the read and the dispatch; [EOFError] leaves the loop,
    [KeyboardInterrupt] starts the next turn, anything else leaves
    [run]. *)
Fixpoint run_loop (input : list env_event) (m : Machine) : outcome * Machine :=
  match input with
  | [] => (Exited 0, snd (print (newline ++ "Goodbye!") m))
  | EvChildExit p rc :: input' => run_loop input' (child_exit p rc m)
  | EvInterrupt :: input' =>
      run_loop input' (snd (reap_finished (snd (print EmptyString m))))
  | EvLine line :: input' =>
      match dispatch line m with
      | (inr _, m') => run_loop input' (snd (reap_finished m'))
      | (inl e, m') =>
          match exn_cls e with
          | EOFError => (Exited 0, snd (print (newline ++ "Goodbye!") m'))
          | KeyboardInterrupt =>
              run_loop input' (snd (reap_finished (snd (print EmptyString m'))))
          | SystemExit => (Exited 0, m')
          | _ => (Uncaught e, m')
          end
      end
  end.

(** [UnixShell.__init__] *)
Definition init_shell : UnixShell :=
  {| jobs := []; job_counter := 1; history := [];
     aliases := default_aliases;
     environment := initial_environ host;
     current_dir := initial_cwd host |}.

Definition init_machine (first_pid : Z) : Machine :=
  {| shell := init_shell;
     world := {| procs := []; next_pid := first_pid;
                 cwd := initial_cwd host; environ := initial_environ host |};
     trace := [] |}.

(** [UnixShell().run()] *)
Definition run (first_pid : Z) (input : list env_event) : outcome * Machine :=
  let m := snd (print "Unix Shell with Job Scheduling - Type 'exit' to quit"
                  (init_machine first_pid)) in
  run_loop input (snd (reap_finished m)).

End Shell.

Arguments poll w p : simpl never.

(** ** A host to run examples on

    One program is missing, one path is a regular file, one directory
    does not exist, and no process outside the shell's children can be
    signalled. *)

Module Demo.

Definition host : Host := {|
  popen_error := fun argv _ =>
    match argv with
    | "nosuch" :: _ =>
        Some (Exn FileNotFoundError
                "[Errno 2] No such file or directory: 'nosuch'")
    | _ => None
    end;
  open_error := fun _ => None;
  chdir_result := fun path =>
    if String.eqb path "/etc/passwd"
    then inl (Exn NotADirectoryError
                "[Errno 20] Not a directory: '/etc/passwd'")
    else if String.eqb path "/missing"
    then inl (Exn FileNotFoundError
                "[Errno 2] No such file or directory: '/missing'")
    else inr path;
  kill_error := fun _ => Some (Exn ProcessLookupError "[Errno 3] No such process");
  exit_status := fun _ => 0;
  stdout_data := fun _ => inr EmptyString;
  stderr_data := fun _ => inr EmptyString;
  pw_dir := "/root";
  initial_environ := [("HOME", "/root")];
  initial_cwd := "/"
|}.

(** The shell as it starts on this host, children numbered from 100. *)
Definition start : Machine := init_machine host 100.

End Demo.

(** ** The vocabulary of the statements *)

(** The parse the sentence of the specification describes: cut at the
    first [>], the left part is the commands, everything to the right of
    it, trimmed, is the redirect target. *)
Definition parse_command_as_specified (command_line : string)
  : list (list string) * bool * option string :=
  let '(body, background) := strip_background command_line in
  let '(before, after) := PyStr.split_once ">" body in
  (stages (PyStr.strip before), background, Some (PyStr.strip after)).

(** The machine with further events on its trace. *)
Definition add_events (m : Machine) (evs : list event) : Machine :=
  {| shell := shell m; world := world m; trace := (trace m ++ evs)%list |}.

(** The machine with another job table. *)
Definition set_jobs (m : Machine) (js : list (Z * Job)) : Machine :=
  {| shell := with_jobs (shell m) js; world := world m; trace := trace m |}.

(** Deleting keys one after the other. *)
Definition del_all (ks : list Z) (js : list (Z * Job)) : list (Z * Job) :=
  fold_left (fun js k => Dict.del Z.eqb k js) ks js.


(** The two operations on the job table. *)
Inductive table_op :=
  | Register (label : string) (p : Popen)
  | Remove (jid : Z).

Definition apply_op (op : table_op) : M unit :=
  match op with
  | Register label p => register label p
  | Remove jid => del_job jid
  end.

(** Whether two entries of the job table are the same: the same key and
    the same job, attribute by attribute. *)
Definition entry_eqb (a b : Z * Job) : bool :=
  Z.eqb (fst a) (fst b)
  && Z.eqb (job_id (snd a)) (job_id (snd b))
  && String.eqb (command (snd a)) (command (snd b))
  && Z.eqb (pid (process (snd a))) (pid (process (snd b)))
  && Bool.eqb (stdout_piped (process (snd a))) (stdout_piped (process (snd b)))
  && String.eqb (status (snd a)) (status (snd b)).

(** What an operation stored: the entries of the table after it that the
    table before it does not have. *)
Definition stored_between (before after : list (Z * Job)) : list (Z * Job) :=
  filter (fun e => negb (existsb (entry_eqb e) before)) after.

(** The ids handed out along a sequence of operations, read off the job
    table: for every entry an operation stored, the key it is stored
    under and the id the stored job carries. *)
Fixpoint assigned_ids (ops : list table_op) (m : Machine) : list (Z * Z) :=
  match ops with
  | [] => []
  | op :: ops' =>
      let m' := snd (apply_op op m) in
      (map (fun e => (fst e, job_id (snd e)))
         (stored_between (jobs (shell m)) (jobs (shell m')))
       ++ assigned_ids ops' m')%list
  end.

Fixpoint registrations (ops : list table_op) : nat :=
  match ops with
  | [] => O
  | Register _ _ :: ops' => S (registrations ops')
  | Remove _ :: ops' => registrations ops'
  end.

(** [c, c+1, ..., c+k-1] *)
Fixpoint upfrom (c : Z) (k : nat) : list Z :=
  match k with
  | O => []
  | S k' => c :: upfrom (c + 1) k'
  end.

(** Events other than waiting for a child or signalling one. *)
Definition quiet (ev : event) : bool :=
  match ev with
  | Waited _ | Signalled _ => false
  | _ => true
  end.

(** What a run of spawns may do to the machine: the shell is untouched,
    process ids only grow, children that existed keep their state, and
    the new events neither wait nor signal; every child spawned is
    running at the end. *)
Record spawn_frame (m m' : Machine) : Prop := {
  sf_shell : shell m' = shell m;
  sf_pid : next_pid (world m) <= next_pid (world m');
  sf_old : forall p, p < next_pid (world m) ->
           Dict.get Z.eqb p (procs (world m'))
           = Dict.get Z.eqb p (procs (world m));
  sf_events : exists evs,
      trace m' = (trace m ++ evs)%list
      /\ Forall (fun ev => quiet ev = true) evs
      /\ forall argv p, In (Spawned argv p) evs ->
           next_pid (world m) <= p < next_pid (world m')
           /\ Dict.get Z.eqb p (procs (world m')) = Some None
}.

(** A stage that can be started: its expansion names a program and the
    host raises nothing for it. *)
Definition spawnable (host : Host) (sh : UnixShell) (c : list string) : Prop :=
  expand_aliases (aliases sh) c <> []
  /\ popen_error host (expand_aliases (aliases sh) c) (current_dir sh) = None.

(** The process handles a [Job] holds: its one [process] attribute. *)
Definition job_handles (job : Job) : list Popen := [process job].

Definition table_ok (sh : UnixShell) : Prop :=
  StronglySorted Z.lt (Dict.keys (jobs sh))
  /\ Forall (fun k => k < job_counter sh) (Dict.keys (jobs sh)).

Definition keeps_table {A} (c : M A) : Prop :=
  forall m, table_ok (shell m) ->
    table_ok (shell (snd (c m)))
    /\ job_counter (shell m) <= job_counter (shell (snd (c m))).

(** Computations that leave table and counter alone. *)
Definition table_untouched {A} (c : M A) : Prop :=
  forall m, jobs (shell (snd (c m))) = jobs (shell m)
            /\ job_counter (shell (snd (c m))) = job_counter (shell m).

(** ** The prompt and the interrupt handler *)

(** [s.startswith(prefix)] *)
Fixpoint startswith (prefix s : string) : bool :=
  match prefix, s with
  | EmptyString, _ => true
  | String a prefix', String b s' => Ascii.eqb a b && startswith prefix' s'
  | String _ _, EmptyString => false
  end.

(** [s.replace(old, new)] for an [old] that is not empty: occurrences
    are taken from the left and do not overlap. [skip] counts the
    characters of a matched occurrence still to pass over. *)
Fixpoint replace_from (old new : string) (skip : nat) (s : string) : string :=
  match s with
  | EmptyString => EmptyString
  | String c s' =>
      match skip with
      | S k => replace_from old new k s'
      | O =>
          if startswith old s
          then new ++ replace_from old new (String.length old - 1) s'
          else String c (replace_from old new O s')
      end
  end.

Definition replace (old new s : string) : string := replace_from old new O s.

(** [os.getenv(name, default)] *)
Definition getenv (w : World) (name default : string) : string :=
  match Dict.get String.eqb name (environ w) with
  | Some v => v
  | None => default
  end.

(** [UnixShell.prompt] *)
Definition prompt (host : Host) (w : World) : string :=
  let user := getenv w "USER" "user" in
  let hostname := getenv w "HOSTNAME" "localhost" in
  let cwd := replace (expanduser_home host w) "~" (cwd w) in
  user ++ "@" ++ hostname ++ ":" ++ cwd ++ "$ ".

(** [UnixShell.signal_handler]: the prompt it computes is dropped. *)
Definition signal_handler (host : Host) : M unit :=
  print (newline ++ "^C") ;;;
  w <- get_world ;;
  let _ := prompt host w in ret tt.

(** ** More vocabulary *)

(** A view of the shell that a computation leaves as it was. *)
Definition preserves {A X} (f : UnixShell -> X) (c : M A) : Prop :=
  forall m, f (shell (snd (c m))) = f (shell m).

(** A view of the shell that does not look at the job table or at the
    counter. *)
Definition ignores_table {X} (f : UnixShell -> X) : Prop :=
  forall sh js c,
    f {| jobs := js; job_counter := c; history := history sh;
         aliases := aliases sh; environment := environment sh;
         current_dir := current_dir sh |} = f sh.


(** The characters of a string. *)
Definition chars (s : string) : list ascii := list_ascii_of_string s.

(** The names [execute_builtin] answers to. *)
Definition builtin_names : list string :=
  ["cd"; "pwd"; "jobs"; "fg"; "bg"; "kill"; "history"; "alias"; "export";
   "exit"].

Definition is_builtin_name (cmd : string) : bool :=
  existsb (String.eqb cmd) builtin_names.

(** The last [n] entries of a list. *)
Definition last_n {A} (n : nat) (l : list A) : list A :=
  skipn (List.length l - n) l.

(** The ways [fg] can find nothing to wait for, with what it prints: no
    argument and an empty table; an argument that is not a number; a
    number that is not in the table. *)
Inductive fg_fails (m : Machine) : list string -> string -> Prop :=
  | fg_no_current_job :
      jobs (shell m) = [] ->
      fg_fails m [] "fg: no current job"
  | fg_invalid_number (a : string) (rest : list string) :
      PyStr.to_Z a = None ->
      fg_fails m (a :: rest) "fg: invalid job number"
  | fg_not_found (a : string) (rest : list string) (n : Z) :
      PyStr.to_Z a = Some n ->
      Dict.get Z.eqb n (jobs (shell m)) = None ->
      fg_fails m (a :: rest) ("fg: job " ++ PyStr.of_Z n ++ " not found").

(** The signal [Popen.terminate] sends: one [SIGTERM] to a child not
    known to have ended, when the host lets it through. *)
Definition sigterm_events (host : Host) (w : World) (p : Popen) : list event :=
  match poll w p, kill_error host (pid p) with
  | None, None => [Signalled (pid p)]
  | _, _ => []
  end.

(** The world once a child has been waited for. *)
Definition waited_world (host : Host) (w : World) (p : Popen) : World :=
  {| procs := Dict.set Z.eqb (pid p) (Some (exit_status host (pid p)))
                (procs w);
     next_pid := next_pid w; cwd := cwd w; environ := environ w |}.

(** The event of opening the redirect target, when one is given. *)
Definition opening_events (redirect_file : option string) : list event :=
  match truthy redirect_file with
  | Some path => [Opened path]
  | None => []
  end.

(** The event of closing it again. *)
Definition closing_events (redirect_file : option string) : list event :=
  match truthy redirect_file with
  | Some path => [ClosedFile path]
  | None => []
  end.

(** What a foreground command that has ended leaves on the terminal:
    its captured standard output, unless redirected or empty, then its
    captured standard error, unless empty. *)
Definition output_events (redirect_file : option string) (out err : string)
  : list event :=
  (match truthy redirect_file, out with
   | Some _, _ | None, EmptyString => []
   | None, _ => [Stdout out]
   end
   ++ match err with
      | EmptyString => []
      | _ => [Stderr err]
      end)%list.

(** The world with one more child, running. *)
Definition spawned_world (w : World) : World :=
  {| procs := Dict.set Z.eqb (next_pid w) None (procs w);
     next_pid := next_pid w + 1; cwd := cwd w; environ := environ w |}.

(** A host like the one of the examples, on which every signal sent
    reaches its process. *)
Definition host_delivering_signals : Host := {|
  popen_error := popen_error Demo.host;
  open_error := open_error Demo.host;
  chdir_result := chdir_result Demo.host;
  kill_error := fun _ => None;
  exit_status := exit_status Demo.host;
  stdout_data := stdout_data Demo.host;
  stderr_data := stderr_data Demo.host;
  pw_dir := pw_dir Demo.host;
  initial_environ := initial_environ Demo.host;
  initial_cwd := initial_cwd Demo.host
|}.

(** A host like the one of the examples, on which no file can be
    created under [/nodir]. *)
Definition host_without_dir : Host := {|
  popen_error := popen_error Demo.host;
  open_error := fun path =>
    if startswith "/nodir/" path
    then Some (Exn FileNotFoundError
                 "[Errno 2] No such file or directory")
    else None;
  chdir_result := chdir_result Demo.host;
  kill_error := kill_error Demo.host;
  exit_status := exit_status Demo.host;
  stdout_data := fun _ => inr "hello";
  stderr_data := stderr_data Demo.host;
  pw_dir := pw_dir Demo.host;
  initial_environ := initial_environ Demo.host;
  initial_cwd := initial_cwd Demo.host
|}.

(** Whether [old] occurs somewhere in [s]. *)
Fixpoint occurs (old s : string) : bool :=
  startswith old s
  || match s with
     | EmptyString => false
     | String _ s' => occurs old s'
     end.

(** A string without whitespace. *)
Definition no_space (t : string) : Prop :=
  forall c, In c (chars t) -> PyStr.is_space c = false.

(** A string of whitespace only. *)
Definition blank (s : string) : Prop :=
  forall c, In c (chars s) -> PyStr.is_space c = true.

(** How the job table may differ between an earlier and a later state
    of the shell: if it was in order it still is, the counter has not
    gone down, and every id in the later table either was in the
    earlier one or had not been handed out yet. *)
Definition table_moves_on (sh sh' : UnixShell) : Prop :=
  table_ok sh ->
  table_ok sh'
  /\ job_counter sh <= job_counter sh'
  /\ forall k, In k (Dict.keys (jobs sh')) ->
       In k (Dict.keys (jobs sh)) \/ job_counter sh <= k.

(** A computation whose effect on the shell stays within a relation. *)
Definition steps {A} (R : UnixShell -> UnixShell -> Prop) (c : M A) : Prop :=
  forall m, R (shell m) (shell (snd (c m))).

(** ** The parser *)

Section ParserFacts.

Variable sep : ascii.

Lemma split_cons (s : string) :
  exists tail, PyStr.split sep s = fst (PyStr.split_once sep s) :: tail
    /\ (PyStr.contains sep s = true ->
        tail = PyStr.split sep (snd (PyStr.split_once sep s))).
Proof.
  induction s as [|c s IH]; simpl.
  - exists []. split; [reflexivity | discriminate].
  - destruct (Ascii.eqb c sep) eqn:E; simpl.
    + eexists. split; [reflexivity | reflexivity].
    + destruct IH as (tail & Hs & Ht). rewrite Hs.
      destruct (PyStr.split_once sep s) as [a b]. simpl in *.
      exists tail. split; [reflexivity | exact Ht].
Qed.

(** [parts[0]] is the text before the first separator. *)
Lemma split_nth0 (s : string) :
  nth 0 (PyStr.split sep s) EmptyString = fst (PyStr.split_once sep s).
Proof.
  destruct (split_cons s) as (tail & Hs & _). rewrite Hs. reflexivity.
Qed.

(** [parts[1]] is the text between the first separator and the next. *)
Lemma split_nth1 (s : string) :
  PyStr.contains sep s = true ->
  nth 1 (PyStr.split sep s) EmptyString
  = fst (PyStr.split_once sep (snd (PyStr.split_once sep s))).
Proof.
  intros H. destruct (split_cons s) as (tail & Hs & Ht).
  rewrite Hs, (Ht H). simpl. apply split_nth0.
Qed.

(** Without a separator, [split_once] keeps the whole text on the left. *)
Lemma split_once_absent (s : string) :
  PyStr.contains sep s = false -> fst (PyStr.split_once sep s) = s.
Proof.
  induction s as [|c s IH]; simpl; [reflexivity|].
  destruct (Ascii.eqb c sep); simpl; [discriminate|].
  intros H. specialize (IH H).
  destruct (PyStr.split_once sep s). simpl in *. now rewrite IH.
Qed.

End ParserFacts.

(** A stage text of whitespace only has no tokens. *)
Lemma blank_stage_no_tokens (s : string) :
  PyStr.lstrip s = EmptyString -> PyStr.words (PyStr.strip s) = [].
Proof.
  intros H. unfold PyStr.strip. rewrite H. reflexivity.
Qed.

(** C4, as stated, fails on a line with two [>]: the target is the text
    between them, not everything after the first. *)
Lemma C4_second_redirect_cuts_target :
  PyStr.contains ">" "cat a > b > c" = true
  /\ parse_command "cat a > b > c" = ([["cat"; "a"]], false, Some "b")
  /\ parse_command_as_specified "cat a > b > c"
     = ([["cat"; "a"]], false, Some "b > c")
  /\ parse_command "cat a > b > c"
     <> parse_command_as_specified "cat a > b > c".
Proof.
  repeat split; try reflexivity. vm_compute. discriminate.
Qed.

(** C4 (amended): for every line whose text, once trimmed and freed of
    the background marker, contains [>], the command part is everything
    before the first [>], and the redirect target is the trimmed text
    between the first [>] and the next one, or the end of the line when
    there is no other. *)
Theorem C4_redirect_split (command_line : string) :
  let body := fst (strip_background command_line) in
  let before := fst (PyStr.split_once ">" body) in
  let after := snd (PyStr.split_once ">" body) in
  PyStr.contains ">" body = true ->
  parse_command command_line
  = (stages (PyStr.strip before),
     snd (strip_background command_line),
     Some (PyStr.strip (fst (PyStr.split_once ">" after)))).
Proof.
  intros body before after H. subst body before after.
  unfold parse_command.
  destruct (strip_background command_line) as [body bg]. simpl in *.
  rewrite H, split_nth0, (split_nth1 _ _ H). reflexivity.
Qed.

Lemma C4_redirect_split_witness :
  parse_command "ls -l | wc > out.txt &"
  = ([["ls"; "-l"]; ["wc"]], true, Some "out.txt").
Proof.
  exact (C4_redirect_split "ls -l | wc > out.txt &" eq_refl).
Defined.

(** With a single [>] the target is everything after it, as the
    specification says. *)
Lemma single_redirect_as_specified (command_line : string) :
  let body := fst (strip_background command_line) in
  PyStr.contains ">" body = true ->
  PyStr.contains ">" (snd (PyStr.split_once ">" body)) = false ->
  parse_command command_line = parse_command_as_specified command_line.
Proof.
  intros body H1 H2. subst body.
  unfold parse_command, parse_command_as_specified.
  destruct (strip_background command_line) as [body bg]. simpl in *.
  rewrite H1, split_nth0, (split_nth1 _ _ H1), (split_once_absent _ _ H2).
  destruct (PyStr.split_once ">" body). reflexivity.
Qed.

(** ** The alias expander *)

(** C6: when the first token is an alias key, the result is the
    whitespace-split tokens of the alias value followed by the remaining
    tokens unchanged; the value's own first token is not looked up
    again. *)
Theorem C6_expand_aliases_first_token
    (aliases : list (string * string)) (c v : string) (rest : list string) :
  Dict.get String.eqb c aliases = Some v ->
  expand_aliases aliases (c :: rest) = (PyStr.words v ++ rest)%list.
Proof.
  intros H. unfold expand_aliases. rewrite H. reflexivity.
Qed.

(** With [ll -> ls -la], the line [ll /tmp] gives [ls -la /tmp]. *)
Lemma C6_ll_tmp :
  fst (fst (parse_command "ll /tmp")) = [["ll"; "/tmp"]]
  /\ expand_aliases default_aliases ["ll"; "/tmp"] = ["ls"; "-la"; "/tmp"].
Proof.
  split; [reflexivity|].
  exact (C6_expand_aliases_first_token default_aliases "ll" "ls -la"
           ["/tmp"] eq_refl).
Defined.

(** Expansion is a single pass: an alias whose value starts with another
    alias is not expanded twice. *)
Lemma expand_aliases_single_pass :
  expand_aliases [("a", "b -x"); ("b", "c")] ["a"; "y"] = ["b"; "-x"; "y"].
Proof. reflexivity. Qed.

(** ** The job table *)

Lemma add_events_nil (m : Machine) : add_events m [] = m.
Proof. destruct m. unfold add_events. simpl. now rewrite app_nil_r. Qed.

Lemma set_jobs_same (m : Machine) : set_jobs m (jobs (shell m)) = m.
Proof. destruct m as [[] ? ?]. reflexivity. Qed.

Lemma for_each_print {A} (f : A -> string) (l : list A) (m : Machine) :
  for_each l (fun x => print (f x)) m
  = (inr tt, add_events m (map (fun x => Stdout (f x ++ newline)) l)).
Proof.
  revert m. induction l as [|x l IH]; intros m; simpl.
  - now rewrite add_events_nil.
  - unfold bind, print, emit at 1. simpl. rewrite IH.
    unfold add_events. simpl. now rewrite <- app_assoc.
Qed.

Lemma for_each_del_job (ks : list Z) (m : Machine) :
  for_each ks del_job m = (inr tt, set_jobs m (del_all ks (jobs (shell m)))).
Proof.
  revert m. induction ks as [|k ks IH]; intros m; simpl.
  - now rewrite set_jobs_same.
  - unfold bind, del_job at 1, get_shell, put_shell. simpl.
    rewrite IH. reflexivity.
Qed.

Lemma del_all_skip (ks : list Z) (k : Z) (v : Job) (js : list (Z * Job)) :
  ~ In k ks -> del_all ks ((k, v) :: js) = (k, v) :: del_all ks js.
Proof.
  revert js. induction ks as [|k' ks IH]; intros js H; simpl; [reflexivity|].
  destruct (Z.eqb_spec k k') as [->|Hne].
  - exfalso. apply H. now left.
  - apply IH. intros Hin. apply H. now right.
Qed.

(** Deleting the keys of the entries a test rejects leaves the entries it
    accepts, in a table without repeated keys. *)
Lemma del_all_rejected (keep : Job -> bool) (js : list (Z * Job)) :
  NoDup (Dict.keys js) ->
  del_all (map fst (filter (fun e => negb (keep (snd e))) js)) js
  = filter (fun e => keep (snd e)) js.
Proof.
  induction js as [|[k v] js IH]; intros Hnd; simpl; [reflexivity|].
  inversion Hnd as [|? ? Hk Hnd']; subst.
  destruct (keep v) eqn:E; simpl.
  - rewrite del_all_skip.
    + now rewrite IH.
    + intros Hin. apply Hk. apply in_map_iff in Hin.
      destruct Hin as ([k' v'] & Heq & Hin). simpl in Heq. subst k'.
      apply filter_In in Hin. apply in_map_iff. exists (k, v'). tauto.
  - rewrite Z.eqb_refl. now apply IH.
Qed.

Lemma sorted_keys_NoDup (ks : list Z) : StronglySorted Z.lt ks -> NoDup ks.
Proof.
  induction 1 as [|k ks Hs IH Hall]; constructor; [|exact IH].
  intros Hin. rewrite Forall_forall in Hall. specialize (Hall k Hin). lia.
Qed.

Lemma str_app_assoc (a b c : string) : ((a ++ b) ++ c = a ++ (b ++ c))%string.
Proof. induction a as [|x a IH]; simpl; [reflexivity | now rewrite IH]. Qed.

(** C7: [jobs] prints one line per table entry, in table order, which is
    ascending id order, each line giving the id, the status and the
    label; it then leaves in the table exactly the entries that are
    still running, and nothing else changes. *)
Theorem C7_show_jobs_lists_then_reaps (m : Machine) :
  StronglySorted Z.lt (Dict.keys (jobs (shell m))) ->
  show_jobs m
  = (inr tt,
     add_events
       (set_jobs m (filter (fun e => is_running (world m) (snd e))
                      (jobs (shell m))))
       (map (fun e => Stdout ("[" ++ PyStr.of_Z (fst e) ++ "]  "
                                ++ get_status (world m) (snd e) ++ "    "
                                ++ command (snd e) ++ newline))
          (jobs (shell m)))).
Proof.
  intros Hs. apply sorted_keys_NoDup in Hs.
  unfold show_jobs, bind at 1, get_shell at 1.
  destruct (jobs (shell m)) as [|e js] eqn:Hj.
  - simpl. rewrite add_events_nil, <- Hj. now rewrite set_jobs_same.
  - rewrite <- Hj in *. unfold bind at 1, get_world at 1.
    unfold bind at 1. rewrite for_each_print.
    unfold bind, get_shell, get_world. simpl.
    rewrite for_each_del_job. simpl. unfold completed.
    rewrite del_all_rejected by exact Hs.
    unfold add_events, set_jobs. simpl.
    do 3 f_equal. apply map_ext. intros a. unfold job_line.
    f_equal. simpl. f_equal.
    rewrite str_app_assoc. simpl. do 4 f_equal.
    rewrite str_app_assoc. reflexivity.
Qed.

(** C10: when [fg] resolves, by its argument or by the largest id held,
    to a job that is no longer running, it waits for nothing, prints
    nothing and leaves the table, entry included, as it was. *)
Theorem C10_fg_finished_job_untouched (host : Host) (args : list string)
    (m : Machine) (job_id : Z) (job : Job) :
  (args = [] /\ jobs (shell m) <> [] /\ job_id = max_key (jobs (shell m)))
  \/ (exists a rest, args = a :: rest /\ PyStr.to_Z a = Some job_id) ->
  Dict.get Z.eqb job_id (jobs (shell m)) = Some job ->
  is_running (world m) job = false ->
  foreground_job host args m = (inr tt, m).
Proof.
  intros Hres Hget Hdone.
  unfold foreground_job, bind at 1, get_shell at 1.
  destruct Hres as [(-> & Hne & ->) | (a & rest & -> & Ha)].
  - destruct (jobs (shell m)) as [|e js] eqn:Hj; [now contradiction Hne|].
    cbv beta iota zeta. rewrite Hget.
    unfold bind, get_world. now rewrite Hdone.
  - rewrite Ha, Hget. unfold bind, get_world. now rewrite Hdone.
Qed.

Lemma C10_fg_finished_job_untouched_witness :
  let m := child_exit 100 0
             (snd (dispatch Demo.host "sleep 1 &" Demo.start)) in
  foreground_job Demo.host ["1"] m = (inr tt, m)
  /\ Dict.mem Z.eqb 1 (jobs (shell m)) = true.
Proof.
  split; [|reflexivity].
  apply (C10_fg_finished_job_untouched Demo.host ["1"] _ 1
           {| job_id := 1; command := "sleep 1";
              process := {| pid := 100; stdout_piped := true |};
              status := "running" |}).
  - right. exists "1", []. split; reflexivity.
  - reflexivity.
  - reflexivity.
Defined.



(** The only path of [kill] that changes the table is the one on which a
    job was found and signalled without error. *)
Lemma kill_changes_table_only_on_success (host : Host) (args : list string)
    (m : Machine) :
  jobs (shell (snd (kill_job host args m))) <> jobs (shell m) ->
  exists a rest n job,
    args = a :: rest /\ PyStr.to_Z a = Some n
    /\ Dict.get Z.eqb n (jobs (shell m)) = Some job
    /\ fst (terminate host (process job) m) = inr tt.
Proof.
  destruct args as [|a rest]; simpl; [intros H; now contradiction H|].
  unfold try_except.
  destruct (PyStr.to_Z a) as [n|] eqn:Ha.
  - unfold bind at 1, get_shell at 1.
    destruct (Dict.get Z.eqb n (jobs (shell m))) as [job|] eqn:Hget.
    + unfold bind at 1.
      destruct (terminate host (process job) m) as [[e|[]] m1] eqn:Ht.
      * assert (Hm1 : shell m1 = shell m).
        { revert Ht. unfold terminate, bind, get_world, try_except, os_kill.
          destruct (poll (world m) (process job)); [intros [= <-]; congruence|].
          destruct (kill_error host (pid (process job))) as [e'|];
            unfold raise, emit; [|discriminate].
          destruct (exn_cls e'); intros [= <- <-]; reflexivity. }
        destruct (exn_cls e); simpl; rewrite ?Hm1; intros H;
          now contradiction H.
      * intros _. exists a, rest, n, job. rewrite Ht. auto.
    + unfold bind, os_kill. destruct (kill_error host n) as [e|].
      * unfold raise. destruct (exn_cls e); simpl; intros H;
          now contradiction H.
      * simpl. intros H; now contradiction H.
  - unfold raise. simpl. intros H; now contradiction H.
Qed.

(** ** Job ids *)

Lemma upfrom_lower (k : nat) (c x : Z) : In x (upfrom c k) -> c <= x.
Proof.
  revert c. induction k as [|k IH]; intros c; simpl; [tauto|].
  intros [<- | H]; [lia|]. apply IH in H. lia.
Qed.

Lemma upfrom_sorted (k : nat) (c : Z) : StronglySorted Z.lt (upfrom c k).
Proof.
  revert c. induction k as [|k IH]; intros c; simpl; constructor.
  - apply IH.
  - apply Forall_forall. intros x H. apply upfrom_lower in H. lia.
Qed.

(** [register] stores the new job under the counter's value, builds it
    with that id, and moves the counter up by one. *)
Lemma register_effect (label : string) (p : Popen) (m : Machine) :
  let c := job_counter (shell m) in
  let job := {| job_id := c; command := label; process := p;
                status := "running" |} in
  register label p m
  = (inr tt,
     {| shell := {| jobs := Dict.set Z.eqb c job (jobs (shell m));
                    job_counter := c + 1;
                    history := history (shell m);
                    aliases := aliases (shell m);
                    environment := environment (shell m);
                    current_dir := current_dir (shell m) |};
        world := world m;
        trace := (trace m ++ [Stdout ("[" ++ PyStr.of_Z c ++ "] "
                                        ++ PyStr.of_Z (pid p) ++ newline)])%list |}).
Proof.
  unfold register, bind, get_shell, put_shell, print, emit. simpl.
  now rewrite !str_app_assoc.
Qed.

Lemma del_job_counter (jid : Z) (m : Machine) :
  job_counter (shell (snd (del_job jid m))) = job_counter (shell m).
Proof. reflexivity. Qed.

(** ** Spawning the stages of a pipeline *)

Lemma get_set_Z {V} (k k' : Z) (v : V) (d : list (Z * V)) :
  Dict.get Z.eqb k (Dict.set Z.eqb k' v d)
  = if Z.eqb k' k then Some v else Dict.get Z.eqb k d.
Proof.
  induction d as [|[k0 v0] d IH]; simpl.
  - reflexivity.
  - destruct (Z.eqb_spec k0 k') as [->|Hne]; simpl.
    + destruct (k' =? k); reflexivity.
    + destruct (Z.eqb_spec k0 k) as [->|Hne'].
      * destruct (Z.eqb_spec k' k); [congruence | reflexivity].
      * exact IH.
Qed.

Lemma spawn_frame_refl (m : Machine) : spawn_frame m m.
Proof.
  constructor; try reflexivity; try lia.
  exists []. rewrite app_nil_r. repeat split; try constructor;
    destruct H.
Qed.

Lemma spawn_frame_trans (m1 m2 m3 : Machine) :
  spawn_frame m1 m2 -> spawn_frame m2 m3 -> spawn_frame m1 m3.
Proof.
  intros [S1 P1 O1 (e1 & T1 & Q1 & R1)] [S2 P2 O2 (e2 & T2 & Q2 & R2)].
  constructor.
  - congruence.
  - lia.
  - intros p Hp. rewrite O2 by lia. now apply O1.
  - exists (e1 ++ e2)%list. split; [|split].
    + now rewrite T2, T1, app_assoc.
    + apply Forall_app. now split.
    + intros argv p Hin. apply in_app_or in Hin. destruct Hin as [Hin|Hin].
      * destruct (R1 _ _ Hin) as [Hr Hg]. split; [lia|].
        rewrite O2 by lia. exact Hg.
      * destruct (R2 _ _ Hin) as [Hr Hg]. split; [lia | exact Hg].
Qed.

(** An event that is neither a spawn, a wait nor a signal. *)
Lemma spawn_frame_emit (ev : event) (m : Machine) :
  quiet ev = true -> (forall argv p, ev <> Spawned argv p) ->
  spawn_frame m (snd (emit ev m)).
Proof.
  intros Hq Hs. constructor; simpl; try reflexivity; try lia.
  exists [ev]. repeat split.
  - now constructor.
  - destruct H as [->|[]]. now contradiction (Hs argv p).
  - destruct H as [->|[]]. now contradiction (Hs argv p).
  - destruct H as [->|[]]. now contradiction (Hs argv p).
Qed.

(** [popen] in full. *)
Lemma popen_spec (host : Host) (argv : list string) (piped : bool)
    (m : Machine) :
  popen host argv piped m
  = match argv with
    | [] => (inl (Exn IndexError "list index out of range"), m)
    | _ =>
        match popen_error host argv (current_dir (shell m)) with
        | Some e => (inl e, m)
        | None =>
            (inr {| pid := next_pid (world m); stdout_piped := piped |},
             {| shell := shell m;
                world := {| procs := Dict.set Z.eqb (next_pid (world m)) None
                                       (procs (world m));
                            next_pid := next_pid (world m) + 1;
                            cwd := cwd (world m);
                            environ := environ (world m) |};
                trace := (trace m ++ [Spawned argv (next_pid (world m))])%list |})
        end
    end.
Proof.
  destruct argv as [|a argv]; [reflexivity|].
  unfold popen, bind, get_shell.
  destruct (popen_error host (a :: argv) (current_dir (shell m)));
    reflexivity.
Qed.

Lemma spawn_frame_popen (host : Host) (argv : list string) (piped : bool)
    (m : Machine) :
  spawn_frame m (snd (popen host argv piped m)).
Proof.
  rewrite popen_spec. destruct argv as [|a argv]; [apply spawn_frame_refl|].
  destruct (popen_error host (a :: argv) (current_dir (shell m)));
    [apply spawn_frame_refl|].
  constructor; simpl; try reflexivity; try lia.
  - intros p Hp. rewrite get_set_Z.
    destruct (Z.eqb_spec (next_pid (world m)) p); [lia | reflexivity].
  - eexists. split; [reflexivity|]. split; [repeat constructor|].
    intros argv' p [H|[]]. injection H as _ <-. split; [lia|].
    now rewrite get_set_Z, Z.eqb_refl.
Qed.

Lemma spawn_frame_open (host : Host) (path : string) (m : Machine) :
  spawn_frame m (snd (open_w host path m)).
Proof.
  unfold open_w. destruct (open_error host path).
  - apply spawn_frame_refl.
  - apply spawn_frame_emit; [reflexivity | discriminate].
Qed.

(** Whatever its outcome, the loop of [execute_pipeline_chain] spawns
    and closes pipes and does nothing else. *)
Lemma spawn_stages_frame (host : Host) (commands : list (list string))
    (n i : nat) (r : option string) (ps : list Popen) (m : Machine) :
  spawn_frame m (snd (spawn_stages host n i commands r ps m)).
Proof.
  revert i ps m. induction commands as [|c rest IH]; intros i ps m.
  - apply spawn_frame_refl.
  - cbn [spawn_stages]. unfold bind at 1, get_shell at 1. unfold bind at 1.
    set (opening := match (i =? n - 1)%nat, truthy r with
                    | true, Some path => open_w host path
                    | _, _ => ret tt
                    end).
    assert (Ho : spawn_frame m (snd (opening m))).
    { subst opening. destruct (i =? n - 1)%nat; [|apply spawn_frame_refl].
      destruct (truthy r); [apply spawn_frame_open | apply spawn_frame_refl]. }
    destruct (opening m) as [[e|[]] m1]; [exact Ho|]. simpl in Ho.
    unfold bind at 1.
    pose proof (spawn_frame_popen host
                  (expand_aliases (aliases (shell m)) c)
                  (negb (i =? n - 1)%nat) m1) as Hp.
    destruct (popen host (expand_aliases (aliases (shell m)) c)
                (negb (i =? n - 1)%nat) m1) as [[e|process] m2];
      simpl in Hp; [exact (spawn_frame_trans _ _ _ Ho Hp)|].
    unfold bind at 1.
    set (closing := match i, last (map Some ps) None with
                    | S _, Some prev => emit (ClosedPipe (pid prev))
                    | S _, None => raise (Exn IndexError "list index out of range")
                    | O, _ => ret tt
                    end).
    assert (Hc : spawn_frame m2 (snd (closing m2))).
    { subst closing. destruct i; [apply spawn_frame_refl|].
      destruct (last (map Some ps) None); [|apply spawn_frame_refl].
      apply spawn_frame_emit; [reflexivity | discriminate]. }
    destruct (closing m2) as [[e|[]] m3]; simpl in Hc.
    + exact (spawn_frame_trans _ _ _ Ho (spawn_frame_trans _ _ _ Hp Hc)).
    + eapply spawn_frame_trans; [exact Ho|].
      eapply spawn_frame_trans; [exact Hp|].
      eapply spawn_frame_trans; [exact Hc|]. apply IH.
Qed.

(** C1, as stated, fails: in [ls | nosuch | wc] the first stage is
    spawned, the second cannot be, and the first is then neither
    signalled nor waited for; it is still running when the error has
    been printed. *)
Lemma C1_spawned_stage_left_running :
  let r := execute_pipeline_chain Demo.host [["ls"]; ["nosuch"]; ["wc"]]
             false None Demo.start in
  fst r = inr tt
  /\ trace (snd r)
     = [Spawned ["ls"] 100;
        Stdout ("Pipeline error: [Errno 2] No such file or directory: 'nosuch'"
                  ++ newline)]
  /\ poll (world (snd r)) {| pid := 100; stdout_piped := true |} = None
  /\ ~ In (Signalled 100) (trace (snd r))
  /\ ~ In (Waited 100) (trace (snd r)).
Proof.
  vm_compute. repeat split; try reflexivity;
    intros [H|[H|[]]]; discriminate H.
Qed.

(** C1 (amended): when the spawning loop of a pipeline raises an
    exception, the pipeline reports it as a [Pipeline error] line and
    returns normally; the job table is unchanged, and the stages spawned
    before the failure are neither signalled nor waited for: they are
    left running. *)
Theorem C1_failed_spawn_reported_stages_left_running (host : Host)
    (commands : list (list string)) (background : bool)
    (redirect_file : option string) (m : Machine) (e : exn) :
  let spawned :=
    spawn_stages host (List.length commands) 0 commands redirect_file [] m in
  fst spawned = inl e ->
  is_Exception e = true ->
  execute_pipeline_chain host commands background redirect_file m
  = (inr tt,
     add_events (snd spawned)
       [Stdout ("Pipeline error: " ++ exn_str e ++ newline)])
  /\ shell (snd spawned) = shell m
  /\ exists evs,
       trace (snd spawned) = (trace m ++ evs)%list
       /\ (forall p, ~ In (Waited p) evs /\ ~ In (Signalled p) evs)
       /\ (forall argv p, In (Spawned argv p) evs ->
             poll (world (snd spawned)) {| pid := p; stdout_piped := true |}
             = None).
Proof.
  intros spawned He Hexc.
  pose proof (spawn_stages_frame host commands (List.length commands) 0
                redirect_file [] m) as [Hs _ _ (evs & Ht & Hq & Hr)].
  fold spawned in Hs, Ht, Hr. split; [|split; [exact Hs|]].
  - unfold execute_pipeline_chain, try_except, bind at 1. fold spawned.
    destruct spawned as [res m']. simpl in He. subst res.
    rewrite Hexc. unfold print, emit, add_events. simpl.
    now rewrite ?str_app_assoc.
  - exists evs. split; [exact Ht|]. split.
    + rewrite Forall_forall in Hq. intros p.
      split; intros Hin; apply Hq in Hin; discriminate Hin.
    + intros argv p Hin. destruct (Hr _ _ Hin) as [_ Hg].
      unfold poll. simpl. now rewrite Hg.
Qed.

Lemma C1_failed_spawn_witness :
  let spawned :=
    spawn_stages Demo.host 3 0 [["ls"]; ["nosuch"]; ["wc"]] None []
      Demo.start in
  execute_pipeline_chain Demo.host [["ls"]; ["nosuch"]; ["wc"]] false None
    Demo.start
  = (inr tt,
     add_events (snd spawned)
       [Stdout ("Pipeline error: "
                  ++ "[Errno 2] No such file or directory: 'nosuch'"
                  ++ newline)])
  /\ shell (snd spawned) = shell Demo.start
  /\ exists evs,
       trace (snd spawned) = (trace Demo.start ++ evs)%list
       /\ (forall p, ~ In (Waited p) evs /\ ~ In (Signalled p) evs)
       /\ (forall argv p, In (Spawned argv p) evs ->
             poll (world (snd spawned)) {| pid := p; stdout_piped := true |}
             = None).
Proof.
  exact (C1_failed_spawn_reported_stages_left_running Demo.host
           [["ls"]; ["nosuch"]; ["wc"]] false None Demo.start
           (Exn FileNotFoundError
              "[Errno 2] No such file or directory: 'nosuch'")
           eq_refl eq_refl).
Defined.

(** The stages before the last, when all of them can be started, are
    all started, and the loop goes on with the stage after them. *)
Lemma spawn_prefix (host : Host) (pre rest : list (list string))
    (n i : nat) (r : option string) (ps : list Popen) (m : Machine) :
  Forall (spawnable host (shell m)) pre ->
  (i + List.length pre < n)%nat ->
  i = O \/ ps <> [] ->
  exists hs m',
    spawn_stages host n i (pre ++ rest)%list r ps m
    = spawn_stages host n (i + List.length pre) rest r (ps ++ hs)%list m'
    /\ spawn_frame m m'
    /\ next_pid (world m') = next_pid (world m) + Z.of_nat (List.length pre)
    /\ ((i + List.length pre)%nat = O \/ (ps ++ hs)%list <> []).
Proof.
  revert i ps m. induction pre as [|c pre IH]; intros i ps m Hall Hlt Hps.
  - exists [], m. simpl. rewrite Nat.add_0_r, app_nil_r.
    split; [reflexivity|]. split; [apply spawn_frame_refl|].
    split; [lia|]. destruct Hps; [left; lia | now right].
  - inversion Hall as [|? ? [Hne Herr] Hall']; subst.
    cbn [app spawn_stages]. unfold bind at 1, get_shell at 1.
    assert (Hfinal : (i =? n - 1)%nat = false).
    { apply Nat.eqb_neq. simpl in Hlt. lia. }
    rewrite Hfinal. unfold bind at 1. cbn [ret]. unfold bind at 1.
    rewrite popen_spec.
    destruct (expand_aliases (aliases (shell m)) c) as [|a argv] eqn:Hexp;
      [now contradiction Hne|].
    rewrite Herr. cbn [negb].
    set (m1 := {| shell := shell m;
                  world := {| procs := Dict.set Z.eqb (next_pid (world m)) None
                                         (procs (world m));
                              next_pid := next_pid (world m) + 1;
                              cwd := cwd (world m);
                              environ := environ (world m) |};
                  trace := (trace m ++ [Spawned (a :: argv) (next_pid (world m))])%list |}).
    assert (Hf1 : spawn_frame m m1).
    { pose proof (spawn_frame_popen host (a :: argv) true m) as H.
      rewrite popen_spec, Herr in H. exact H. }
    set (process := {| pid := next_pid (world m); stdout_piped := true |}).
    unfold bind at 1.
    assert (Hclose : exists m2,
               (match i, last (map Some ps) None with
                | S _, Some prev => emit (ClosedPipe (pid prev))
                | S _, None => raise (Exn IndexError "list index out of range")
                | O, _ => ret tt
                end) m1 = (inr tt, m2)
               /\ spawn_frame m1 m2
               /\ next_pid (world m2) = next_pid (world m1)).
    { destruct i as [|i'].
      - exists m1. split; [reflexivity|].
        split; [apply spawn_frame_refl | reflexivity].
      - destruct Hps as [Hi|Hps]; [discriminate|].
        destruct ps as [|p0 ps] using rev_ind; [now contradiction Hps|].
        rewrite map_app. cbn [map]. rewrite last_last. eexists. split; [reflexivity|]. split.
        + apply (spawn_frame_emit (ClosedPipe (pid p0)) m1);
            [reflexivity | discriminate].
        + reflexivity. }
    destruct Hclose as (m2 & -> & Hf2 & Hpid2).
    destruct (IH (S i) (ps ++ [process])%list m2) as (hs & m' & Heq & Hf & Hpid & Hne').
    + destruct Hf1 as [S1 _ _ _], Hf2 as [S2 _ _ _].
      now rewrite S2, S1.
    + simpl in Hlt. lia.
    + right. now destruct ps.
    + exists (process :: hs), m'. rewrite Heq.
      replace (i + List.length (c :: pre))%nat with (S i + List.length pre)%nat
        by (simpl; lia).
      rewrite <- app_assoc. simpl. split; [reflexivity|].
      split; [exact (spawn_frame_trans _ _ _ Hf1 (spawn_frame_trans _ _ _ Hf2 Hf))|].
      split; [rewrite Hpid, Hpid2; simpl; lia|].
      rewrite <- app_assoc in Hne'. simpl in Hne'.
      destruct Hne' as [H|H]; [lia | now right].
Qed.

(** ** Stages without tokens *)

Lemma lstrip_blank (s : string) :
  (forall c, In c (list_ascii_of_string s) -> PyStr.is_space c = true) ->
  PyStr.lstrip s = EmptyString.
Proof.
  induction s as [|c s IH]; simpl; intros H; [reflexivity|].
  rewrite (H c) by now left. apply IH. intros c' Hc. apply H. now right.
Qed.

(** C5, as stated, fails on a line that is only a background marker:
    its single stage has no tokens, and the line is dropped without a
    word: nothing is printed, nothing is spawned, the shell goes on. *)
Lemma C5_lone_background_marker_dropped :
  let r := dispatch Demo.host "&" Demo.start in
  parse_command "&" = ([[]], true, None)
  /\ fst r = inr tt
  /\ trace (snd r) = []
  /\ world (snd r) = world Demo.start
  /\ jobs (shell (snd r)) = [].
Proof. vm_compute. repeat split. Qed.

(** C5 (amended): a stage text of whitespace only yields an empty
    argument list. When such a stage is the whole command line, the
    built-in check takes it and the line is dropped in silence: the
    machine is as before. When it is a stage of a multi-stage pipeline
    whose earlier stages can be started, its spawn raises and the line
    [Pipeline error: list index out of range] is printed, the earlier
    stages having been spawned. *)
Theorem C5_empty_stage (host : Host) :
  (forall s : string,
      (forall c, In c (list_ascii_of_string s) -> PyStr.is_space c = true) ->
      PyStr.words (PyStr.strip s) = [])
  /\ (forall (background : bool) (redirect_file : option string)
             (m : Machine),
         execute_pipeline host [[]] background redirect_file m = (inr tt, m))
  /\ (forall (pre post : list (list string)) (background : bool)
             (redirect_file : option string) (m : Machine),
         pre <> [] \/ post <> [] ->
         Forall (spawnable host (shell m)) pre ->
         (post = [] -> forall path, truthy redirect_file = Some path ->
                                    open_error host path = None) ->
         exists m',
           execute_pipeline host (pre ++ [] :: post)%list background
             redirect_file m
           = (inr tt,
              add_events m'
                [Stdout ("Pipeline error: list index out of range"
                           ++ newline)])
           /\ spawn_frame m m'
           /\ next_pid (world m')
              = next_pid (world m) + Z.of_nat (List.length pre)).
Proof.
  split; [|split].
  - intros s H. apply blank_stage_no_tokens, lstrip_blank, H.
  - intros background redirect_file m. reflexivity.
  - intros pre post background redirect_file m Hmulti Hall Hopen.
    assert (Hchain : execute_pipeline host (pre ++ [] :: post)%list
                       background redirect_file m
                     = execute_pipeline_chain host (pre ++ [] :: post)%list
                         background redirect_file m).
    { destruct pre as [|c [|c' pre]]; simpl; try reflexivity.
      destruct post; [destruct Hmulti as [H|H]; now contradiction H|].
      reflexivity. }
    rewrite Hchain. unfold execute_pipeline_chain, try_except, bind at 1.
    set (n := List.length (pre ++ [] :: post)%list).
    assert (Hn : n = (List.length pre + S (List.length post))%nat).
    { subst n. rewrite length_app. reflexivity. }
    destruct (spawn_prefix host pre ([] :: post) n 0 redirect_file [] m Hall)
      as (hs & m1 & Heq & Hf & Hpid & _); [lia | now left |].
    rewrite Heq. cbn [spawn_stages app plus].
    unfold bind at 1, get_shell at 1. cbn [expand_aliases].
    unfold bind at 1.
    assert (Hop : exists m2,
               (match (List.length pre =? n - 1)%nat, truthy redirect_file with
                | true, Some path => open_w host path
                | _, _ => ret tt
                end) m1 = (inr tt, m2)
               /\ spawn_frame m1 m2
               /\ next_pid (world m2) = next_pid (world m1)).
    { destruct (List.length pre =? n - 1)%nat eqn:Hfin.
      - destruct (truthy redirect_file) as [path|] eqn:Htr.
        + assert (post = []) as Hpost.
          { apply Nat.eqb_eq in Hfin. destruct post; [reflexivity|].
            simpl in Hn. lia. }
          unfold open_w. rewrite (Hopen Hpost path eq_refl).
          eexists. split; [reflexivity|]. split; [|reflexivity].
          apply (spawn_frame_emit (Opened path) m1);
            [reflexivity | discriminate].
        + exists m1. split; [reflexivity|].
          split; [apply spawn_frame_refl | reflexivity].
      - exists m1. split; [reflexivity|].
        split; [apply spawn_frame_refl | reflexivity]. }
    destruct Hop as (m2 & -> & Hf2 & Hpid2).
    unfold bind at 1. rewrite popen_spec. cbn [is_Exception exn_cls].
    exists m2. split; [|split].
    + unfold print, emit, add_events. reflexivity.
    + exact (spawn_frame_trans _ _ _ Hf Hf2).
    + now rewrite Hpid2.
Qed.

Lemma C5_empty_stage_witness :
  exists m',
    execute_pipeline Demo.host [["ls"]; []; ["wc"]] false None Demo.start
    = (inr tt,
       add_events m'
         [Stdout ("Pipeline error: list index out of range" ++ newline)])
    /\ spawn_frame Demo.start m'
    /\ next_pid (world m') = 101.
Proof.
  apply (proj2 (proj2 (C5_empty_stage Demo.host))
           [["ls"]] [["wc"]] false None Demo.start).
  - left. discriminate.
  - constructor; [|constructor]. split; [discriminate | reflexivity].
  - discriminate.
Defined.

(** ** What a job holds *)

(** C9, as stated, fails: the job made of the two-stage pipeline
    [ls | wc &] holds one handle, that of [wc], and none for [ls]. *)
Lemma C9_two_stage_job_holds_one_handle :
  let m := snd (dispatch Demo.host "ls | wc &" Demo.start) in
  fst (fst (parse_command "ls | wc &")) = [["ls"]; ["wc"]]
  /\ trace m = [Spawned ["ls"] 100; Spawned ["wc"] 101; ClosedPipe 100;
                Stdout ("[1] 101" ++ newline)]
  /\ exists job,
       jobs (shell m) = [(1, job)]
       /\ job_handles job = [{| pid := 101; stdout_piped := false |}]
       /\ List.length (job_handles job) <> 2%nat
       /\ ~ In 100 (map pid (job_handles job)).
Proof.
  vm_compute. split; [reflexivity|]. split; [reflexivity|].
  eexists. split; [reflexivity|]. split; [reflexivity|].
  split; [discriminate|]. intros [H|[]]. discriminate H.
Qed.

(** C9 (amended): the job made of a background pipeline whose stages
    all start holds exactly one process handle, that of the last stage;
    it is stored under the counter's value, labelled with the stages as
    typed. *)
Theorem C9_background_job_holds_last_stage (host : Host)
    (pre : list (list string)) (final : list string)
    (redirect_file : option string) (m : Machine) :
  pre <> [] ->
  Forall (spawnable host (shell m)) (pre ++ [final])%list ->
  (forall path, truthy redirect_file = Some path ->
                open_error host path = None) ->
  let c := job_counter (shell m) in
  let last_pid := next_pid (world m) + Z.of_nat (List.length pre) in
  exists m' job,
    execute_pipeline host (pre ++ [final])%list true redirect_file m
    = (inr tt, m')
    /\ jobs (shell m') = Dict.set Z.eqb c job (jobs (shell m))
    /\ job_id job = c
    /\ command job = pipeline_label (pre ++ [final])%list
    /\ job_handles job = [{| pid := last_pid; stdout_piped := false |}]
    /\ In (Spawned (expand_aliases (aliases (shell m)) final) last_pid)
         (trace m').
Proof.
  intros Hpre Hall Hopen c last_pid.
  apply Forall_app in Hall. destruct Hall as [Hall Hfin].
  inversion Hfin as [|? ? [Hne Herr] _]; subst.
  assert (Hchain : execute_pipeline host (pre ++ [final])%list true
                     redirect_file m
                   = execute_pipeline_chain host (pre ++ [final])%list true
                       redirect_file m).
  { destruct pre as [|c0 [|c1 pre]]; [now contradiction Hpre | |];
      reflexivity. }
  rewrite Hchain. unfold execute_pipeline_chain, try_except, bind at 1.
  set (n := List.length (pre ++ [final])%list).
  assert (Hn : n = S (List.length pre)).
  { subst n. rewrite length_app. simpl. lia. }
  destruct (spawn_prefix host pre [final] n 0 redirect_file [] m Hall)
    as (hs & m1 & Heq & Hf & Hpid & Hhs); [lia | now left |].
  rewrite Heq. cbn [spawn_stages app plus].
  unfold bind at 1, get_shell at 1.
  assert (Hlast : (List.length pre =? n - 1)%nat = true).
  { apply Nat.eqb_eq. lia. }
  rewrite Hlast. cbn [negb]. unfold bind at 1.
  assert (Hsh1 : shell m1 = shell m) by now destruct Hf.
  assert (Hop : exists m2,
             (match truthy redirect_file with
              | Some path => open_w host path
              | None => ret tt
              end) m1 = (inr tt, m2)
             /\ shell m2 = shell m /\ world m2 = world m1).
  { destruct (truthy redirect_file) as [path|] eqn:Htr.
    - unfold open_w. rewrite (Hopen path eq_refl).
      eexists. split; [reflexivity|]. split; [exact Hsh1 | reflexivity].
    - exists m1. split; [reflexivity|]. split; [exact Hsh1 | reflexivity]. }
  destruct Hop as (m2 & -> & Hsh2 & Hw2).
  unfold bind at 1. rewrite popen_spec, Hsh1, Hsh2.
  destruct (expand_aliases (aliases (shell m)) final) as [|a argv] eqn:Hexp;
    [now contradiction Hne|].
  rewrite Herr. unfold bind at 1.
  set (handle := {| pid := next_pid (world m2); stdout_piped := false |}).
  set (m3 := {| shell := shell m;
                world := {| procs := Dict.set Z.eqb (next_pid (world m2)) None
                                       (procs (world m2));
                            next_pid := next_pid (world m2) + 1;
                            cwd := cwd (world m2);
                            environ := environ (world m2) |};
                trace := (trace m2 ++ [Spawned (a :: argv)
                                         (next_pid (world m2))])%list |}).
  assert (Hclose : exists m4,
             (match List.length pre, last (map Some hs) None with
              | S _, Some prev => emit (ClosedPipe (pid prev))
              | S _, None => raise (Exn IndexError "list index out of range")
              | O, _ => ret tt
              end) m3 = (inr tt, m4)
             /\ shell m4 = shell m3
             /\ exists evs, trace m4 = (trace m3 ++ evs)%list).
  { destruct (List.length pre) eqn:Hlen.
    - exists m3. split; [reflexivity|]. split; [reflexivity|].
      exists []. now rewrite app_nil_r.
    - destruct (last (map Some hs) None) as [prev|] eqn:Hl.
      + eexists. split; [reflexivity|]. split; [reflexivity|].
        eexists. reflexivity.
      + exfalso. clear - Hl Hhs Hlen.
        destruct hs as [|h hs _] using rev_ind.
        * destruct Hhs as [H|H]; [simpl in H; lia | now contradiction H].
        * rewrite map_app in Hl. cbn [map] in Hl. rewrite last_last in Hl.
          discriminate Hl. }
  destruct Hclose as (m4 & -> & Hsh4 & evs & Ht4).
  cbn [ret]. rewrite map_app. cbn [map]. rewrite last_last.
  rewrite register_effect. eexists. eexists.
  split; [reflexivity|]. cbn [shell jobs].
  rewrite Hsh4. subst m3. cbn [shell].
  split; [reflexivity|]. split; [reflexivity|]. split; [reflexivity|].
  split.
  - unfold job_handles, handle, last_pid. cbn [process].
    now rewrite Hw2, Hpid.
  - cbn [trace]. rewrite Ht4. cbn [trace].
    apply in_or_app. left. apply in_or_app. left.
    apply in_or_app. right. left. unfold last_pid.
    now rewrite Hw2, Hpid.
Qed.

Lemma C9_background_job_holds_last_stage_witness :
  exists m' job,
    execute_pipeline Demo.host [["ll"]; ["sort"]; ["wc"; "-l"]] true None
      Demo.start
    = (inr tt, m')
    /\ jobs (shell m') = Dict.set Z.eqb 1 job (jobs (shell Demo.start))
    /\ job_id job = 1
    /\ command job = "ll | sort | wc -l"
    /\ job_handles job = [{| pid := 102; stdout_piped := false |}]
    /\ In (Spawned ["wc"; "-l"] 102) (trace m').
Proof.
  apply (C9_background_job_holds_last_stage Demo.host
           [["ll"]; ["sort"]] ["wc"; "-l"] None Demo.start).
  - discriminate.
  - repeat constructor; discriminate.
  - discriminate.
Defined.

(** A table of two jobs, the first of which has ended, listed by
    [jobs]. *)
Lemma C7_show_jobs_witness :
  let m := child_exit 100 0
             (snd (dispatch Demo.host "ls | wc &"
                     (snd (dispatch Demo.host "sleep 5 &" Demo.start)))) in
  Dict.keys (jobs (shell m)) = [1; 2]
  /\ show_jobs m
     = (inr tt,
        add_events
          (set_jobs m (filter (fun e => is_running (world m) (snd e))
                         (jobs (shell m))))
          [Stdout ("[1]  done (0)    sleep 5" ++ newline);
           Stdout ("[2]  running    ls | wc" ++ newline)])
  /\ Dict.keys (jobs (shell (snd (show_jobs m)))) = [2].
Proof.
  intros m. split; [reflexivity|]. split; [|reflexivity].
  apply (C7_show_jobs_lists_then_reaps m).
  repeat constructor.
Defined.

(** ** The dispatch boundary *)

(** C2 fails on the code: [cd] to a path that is not a directory raises
    [NotADirectoryError], which the handler in [cd] does not list and
    which no handler of [run] lists either; the shell process ends with
    the exception, and the line typed after it is never read. *)
Theorem C2_cd_to_a_file_ends_the_shell :
  let r := run Demo.host 100 [EvLine "cd /etc/passwd"; EvLine "pwd"] in
  fst r = Uncaught (Exn NotADirectoryError
                      "[Errno 20] Not a directory: '/etc/passwd'")
  /\ trace (snd r)
     = [Stdout ("Unix Shell with Job Scheduling - Type 'exit' to quit"
                  ++ newline)].
Proof. vm_compute. split; reflexivity. Qed.

(** The same line with a path that does not exist is reported and the
    loop goes on, as is any failure to start an external command. *)
Lemma missing_directory_and_missing_program_are_reported :
  let r := run Demo.host 100
             [EvLine "cd /missing"; EvLine "nosuch -x"; EvLine "pwd"] in
  fst r = Exited 0
  /\ trace (snd r)
     = [Stdout ("Unix Shell with Job Scheduling - Type 'exit' to quit"
                  ++ newline);
        Stdout ("cd: /missing: No such file or directory" ++ newline);
        Stdout ("nosuch: command not found" ++ newline);
        Stdout ("/" ++ newline);
        Stdout (newline ++ "Goodbye!" ++ newline)].
Proof. vm_compute. split; reflexivity. Qed.

(** In general: whatever [os.chdir] raises, other than the two classes
    [cd] lists, leaves [execute_builtin] as raised. *)
Lemma cd_lets_other_errors_through (host : Host) (path : string)
    (rest : list string) (m : Machine) (e : exn) :
  chdir_result host path = inl e ->
  exn_cls e <> IndexError -> exn_cls e <> FileNotFoundError ->
  execute_builtin host ("cd" :: path :: rest) m = (inl e, m).
Proof.
  intros Hc H1 H2. unfold execute_builtin. cbn [String.eqb Ascii.eqb].
  change (("cd" =? "cd")%string) with true. cbv iota.
  unfold bind at 1, builtin_cd, try_except, bind at 1, get_world at 1.
  unfold chdir. rewrite Hc. unfold raise.
  destruct (exn_cls e); try reflexivity; congruence.
Qed.

(** ** The job table in every state the shell reaches

    The keys of the table are in strictly ascending order, which is the
    order of insertion, and all lie below the counter; no method lowers
    the counter. *)

Lemma untouched_keeps {A} (c : M A) : table_untouched c -> keeps_table c.
Proof.
  intros H m [Hs Hb]. destruct (H m) as [Hj Hc].
  unfold table_ok. rewrite Hj, Hc. repeat split; try assumption. lia.
Qed.

Lemma keeps_ret {A} (a : A) : keeps_table (ret a).
Proof. intros m H. split; [exact H | simpl; lia]. Qed.

Lemma keeps_raise {A} (e : exn) : keeps_table (@raise A e).
Proof. intros m H. split; [exact H | simpl; lia]. Qed.

Lemma keeps_bind {A B} (c : M A) (k : A -> M B) :
  keeps_table c -> (forall a, keeps_table (k a)) -> keeps_table (bind c k).
Proof.
  intros Hc Hk m Hok. unfold bind.
  specialize (Hc m Hok). destruct (c m) as [[e|a] m1]; simpl in Hc.
  - exact Hc.
  - destruct (Hk a m1 (proj1 Hc)). split; [assumption | lia].
Qed.

Lemma keeps_try {A} (c : M A) (h : exn -> option (M A)) :
  keeps_table c -> (forall e k, h e = Some k -> keeps_table k) ->
  keeps_table (try_except c h).
Proof.
  intros Hc Hh m Hok. unfold try_except.
  specialize (Hc m Hok). destruct (c m) as [[e|a] m1]; simpl in Hc.
  - destruct (h e) as [k|] eqn:E; [|exact Hc].
    destruct (Hh e k E m1 (proj1 Hc)). split; [assumption | lia].
  - exact Hc.
Qed.

Lemma keeps_for_each {A} (l : list A) (body : A -> M unit) :
  (forall x, keeps_table (body x)) -> keeps_table (for_each l body).
Proof.
  intros H. induction l as [|x l IH]; simpl.
  - apply keeps_ret.
  - apply keeps_bind; [apply H | intros _; exact IH].
Qed.

Lemma keeps_get_shell : keeps_table get_shell.
Proof. intros m H. split; [exact H | simpl; lia]. Qed.

Lemma keeps_get_world : keeps_table get_world.
Proof. intros m H. split; [exact H | simpl; lia]. Qed.

Lemma keeps_put_world (w : World) : keeps_table (put_world w).
Proof. intros m H. split; [exact H | simpl; lia]. Qed.

Lemma keeps_emit (ev : event) : keeps_table (emit ev).
Proof. intros m H. split; [exact H | simpl; lia]. Qed.

Lemma keeps_print (s : string) : keeps_table (print s).
Proof. apply keeps_emit. Qed.

Lemma keys_del (jid : Z) (js : list (Z * Job)) :
  forall k, In k (Dict.keys (Dict.del Z.eqb jid js)) -> In k (Dict.keys js).
Proof.
  induction js as [|[k0 v0] js IH]; simpl; intros k H; [exact H|].
  destruct (k0 =? jid); simpl in *; [now right|].
  destruct H as [H|H]; [now left | right; now apply IH].
Qed.

Lemma sorted_del (jid : Z) (js : list (Z * Job)) :
  StronglySorted Z.lt (Dict.keys js) ->
  StronglySorted Z.lt (Dict.keys (Dict.del Z.eqb jid js)).
Proof.
  induction js as [|[k0 v0] js IH]; simpl; intros H; [exact H|].
  inversion H as [|? ? Hs Hall]; subst.
  destruct (k0 =? jid); simpl; [exact Hs|].
  constructor; [now apply IH|].
  rewrite Forall_forall in *. intros k Hk. apply Hall.
  exact (keys_del jid js k Hk).
Qed.

Lemma keeps_del_job (jid : Z) : keeps_table (del_job jid).
Proof.
  intros m [Hs Hb]. simpl. split; [|lia]. split.
  - now apply sorted_del.
  - rewrite Forall_forall in *. intros k Hk. apply Hb.
    exact (keys_del jid _ k Hk).
Qed.

(** A key above all the keys of the table goes last. *)
Lemma set_fresh (c : Z) (job : Job) (js : list (Z * Job)) :
  Forall (fun k => k < c) (Dict.keys js) ->
  Dict.set Z.eqb c job js = (js ++ [(c, job)])%list.
Proof.
  induction js as [|[k0 v0] js IH]; simpl; intros H; [reflexivity|].
  inversion H; subst.
  destruct (Z.eqb_spec k0 c); [lia|]. now rewrite IH.
Qed.

Lemma sorted_snoc (ks : list Z) (c : Z) :
  StronglySorted Z.lt ks -> Forall (fun k => k < c) ks ->
  StronglySorted Z.lt (ks ++ [c]).
Proof.
  induction 1 as [|k ks Hs IH Hall]; intros Hb; simpl.
  - repeat constructor.
  - inversion Hb; subst. constructor; [now apply IH|].
    apply Forall_app. split; [exact Hall | now repeat constructor].
Qed.

Lemma keeps_register (label : string) (p : Popen) :
  keeps_table (register label p).
Proof.
  intros m [Hs Hb]. rewrite register_effect. simpl.
  rewrite set_fresh by exact Hb.
  unfold table_ok, Dict.keys. simpl. rewrite map_app. simpl.
  split; [|lia]. split.
  - now apply sorted_snoc.
  - apply Forall_app. split.
    + eapply Forall_impl; [|exact Hb]. simpl. intros; lia.
    + repeat constructor. lia.
Qed.

Create HintDb keeps.

#[local] Hint Resolve keeps_ret keeps_raise keeps_get_shell keeps_get_world
  keeps_put_world keeps_emit keeps_print keeps_del_job keeps_register
  : keeps.

(** Takes a computation apart along its binds, handlers, loops and case
    distinctions. *)
Ltac keeps_step :=
  match goal with
  | |- keeps_table (bind _ _) => apply keeps_bind; [|intros ?]
  | |- keeps_table (try_except _ _) => apply keeps_try; [|intros ? ? ?]
  | |- keeps_table (for_each _ _) => apply keeps_for_each; intros ?
  | |- keeps_table (match ?x with _ => _ end) => destruct x eqn:?
  | |- keeps_table _ => solve [auto with keeps]
  | H : match ?x with _ => _ end = Some _ |- _ => destruct x; try discriminate H
  | H : Some _ = Some _ |- _ => injection H as <-
  end.

Ltac keeps_tac := repeat keeps_step.

Section TableKept.

Variable host : Host.

Lemma keeps_popen (argv : list string) (piped : bool) :
  keeps_table (popen host argv piped).
Proof.
  apply untouched_keeps. intros m. rewrite popen_spec.
  destruct argv; [split; reflexivity|].
  destruct (popen_error host _ _); split; reflexivity.
Qed.

Lemma keeps_wait (p : Popen) : keeps_table (wait host p).
Proof. unfold wait. keeps_tac. Qed.

Lemma keeps_os_kill (n : Z) : keeps_table (os_kill host n).
Proof. unfold os_kill. keeps_tac. Qed.

Lemma keeps_terminate (p : Popen) : keeps_table (terminate host p).
Proof. unfold terminate. keeps_tac. apply keeps_os_kill. Qed.

Lemma keeps_open_w (path : string) : keeps_table (open_w host path).
Proof. unfold open_w. keeps_tac. Qed.

Hint Resolve keeps_popen keeps_wait keeps_os_kill keeps_terminate
  keeps_open_w : keeps.

Lemma keeps_show_jobs : keeps_table show_jobs.
Proof. unfold show_jobs. keeps_tac. Qed.

Lemma keeps_foreground_job (args : list string) :
  keeps_table (foreground_job host args).
Proof. unfold foreground_job. keeps_tac. Qed.

Lemma keeps_kill_job (args : list string) : keeps_table (kill_job host args).
Proof. unfold kill_job. keeps_tac. Qed.

Lemma keeps_show_history_from (h : list string) (i : Z) :
  keeps_table (show_history_from i h).
Proof.
  revert i. induction h as [|cmd h IH]; intros i; simpl; keeps_tac.
Qed.

Lemma keeps_handle_alias (args : list string) :
  keeps_table (handle_alias args).
Proof.
  assert (Hset : forall n v, keeps_table
            (sh <- get_shell ;;
             put_shell {| jobs := jobs sh; job_counter := job_counter sh;
                          history := history sh;
                          aliases := Dict.set String.eqb n v (aliases sh);
                          environment := environment sh;
                          current_dir := current_dir sh |})).
  { intros n v. apply untouched_keeps. intros m. split; reflexivity. }
  unfold handle_alias. destruct args as [|a args].
  - keeps_tac.
  - destruct (PyStr.contains "=" a).
    + destruct (PyStr.split_once "=" a) as [name value]. apply Hset.
    + keeps_tac.
Qed.

Lemma keeps_handle_export (args : list string) :
  keeps_table (handle_export args).
Proof.
  unfold handle_export. apply keeps_for_each. intros arg.
  destruct (PyStr.contains "=" arg) eqn:E.
  - apply untouched_keeps. intros m. unfold bind, get_shell.
    destruct (PyStr.split_once "=" arg) as [name value].
    destruct (putenv_error name value); split; reflexivity.
  - intros m Hok. unfold bind, get_shell.
    destruct (Dict.get String.eqb arg (environment (shell m)));
      split; simpl; try assumption; lia.
Qed.

Lemma keeps_builtin_cd (args : list string) :
  keeps_table (builtin_cd host args).
Proof.
  unfold builtin_cd. apply keeps_try.
  - apply untouched_keeps. intros m. unfold bind, get_world, chdir.
    destruct (chdir_result host _); split; reflexivity.
  - intros e k H. destruct (exn_cls e); try discriminate H;
      injection H as <-; apply keeps_print.
Qed.

Hint Resolve keeps_show_jobs keeps_foreground_job keeps_kill_job
  keeps_show_history_from keeps_handle_alias keeps_handle_export
  keeps_builtin_cd : keeps.

Lemma keeps_execute_builtin (command : list string) :
  keeps_table (execute_builtin host command).
Proof.
  unfold execute_builtin, background_job, show_history.
  destruct command as [|cmd args]; [apply keeps_ret|].
  repeat match goal with
         | |- keeps_table (if ?b then _ else _) => destruct b
         end; keeps_tac.
Qed.

Lemma keeps_emit_captured (to_stderr : bool) (d : exn + string) :
  keeps_table (emit_captured to_stderr d).
Proof.
  unfold emit_captured, decoded, print_raw, eprint_raw.
  destruct d as [e|[|c s]]; keeps_tac.
Qed.

Hint Resolve keeps_execute_builtin keeps_emit_captured : keeps.

Lemma keeps_run_single (command : list string) (background : bool)
    (redirect_file : option string) :
  keeps_table (run_single host command background redirect_file).
Proof. unfold run_single. keeps_tac. Qed.

Lemma keeps_spawn_stages (commands : list (list string)) (n i : nat)
    (r : option string) (ps : list Popen) :
  keeps_table (spawn_stages host n i commands r ps).
Proof.
  apply untouched_keeps. intros m.
  destruct (spawn_stages_frame host commands n i r ps m) as [Hs _ _ _].
  now rewrite Hs.
Qed.

Hint Resolve keeps_run_single keeps_spawn_stages : keeps.

Lemma keeps_execute_pipeline_chain (commands : list (list string))
    (background : bool) (redirect_file : option string) :
  keeps_table (execute_pipeline_chain host commands background redirect_file).
Proof. unfold execute_pipeline_chain. keeps_tac. Qed.

Hint Resolve keeps_execute_pipeline_chain : keeps.

Lemma keeps_execute_pipeline (commands : list (list string))
    (background : bool) (redirect_file : option string) :
  keeps_table (execute_pipeline host commands background redirect_file).
Proof. unfold execute_pipeline. keeps_tac. Qed.

Lemma keeps_history_append (line : string) :
  keeps_table (history_append line).
Proof. apply untouched_keeps. intros m. split; reflexivity. Qed.

Lemma keeps_reap_finished : keeps_table reap_finished.
Proof. unfold reap_finished. keeps_tac. Qed.

Hint Resolve keeps_execute_pipeline keeps_history_append
  keeps_reap_finished : keeps.

Lemma keeps_dispatch (line : string) : keeps_table (dispatch host line).
Proof.
  unfold dispatch. destruct (PyStr.strip line); [apply keeps_ret|].
  destruct (parse_command line) as [[commands background] redirect_file].
  keeps_tac.
Qed.

Lemma child_exit_shell (p rc : Z) (m : Machine) :
  shell (child_exit p rc m) = shell m.
Proof.
  unfold child_exit. destruct (Dict.get Z.eqb p (procs (world m))) as [[|]|];
    reflexivity.
Qed.

(** Every state [run_loop] ends in, started from a state whose table is
    in order, has its table in order. *)
Lemma run_loop_table_ok (input : list env_event) (m : Machine) :
  table_ok (shell m) -> table_ok (shell (snd (run_loop host input m))).
Proof.
  revert m. induction input as [|ev input IH]; intros m Hok.
  - exact Hok.
  - destruct ev as [line | | p rc]; cbn [run_loop].
    + pose proof (keeps_dispatch line m Hok) as [Hd _].
      destruct (dispatch host line m) as [[e|[]] m1]; simpl in Hd.
      * destruct (exn_cls e); try exact Hd.
        apply IH. now apply keeps_reap_finished.
      * apply IH. now apply keeps_reap_finished.
    + apply IH. now apply keeps_reap_finished.
    + apply IH. now rewrite child_exit_shell.
Qed.

(** X25: The table of the shell is in ascending id order, below the counter,
    whatever was typed and whatever the children did. *)
Lemma run_table_ok (first_pid : Z) (input : list env_event) :
  table_ok (shell (snd (run host first_pid input))).
Proof.
  unfold run. apply run_loop_table_ok. apply keeps_reap_finished.
  split; constructor.
Qed.

End TableKept.

(** ** The ids the table hands out *)

Lemma entry_eqb_refl (e : Z * Job) : entry_eqb e e = true.
Proof.
  unfold entry_eqb.
  now rewrite !Z.eqb_refl, !String.eqb_refl, Bool.eqb_reflx.
Qed.

Lemma stored_nothing (before after : list (Z * Job)) :
  (forall e, In e after -> In e before) ->
  stored_between before after = [].
Proof.
  intros H. unfold stored_between.
  induction after as [|e after IH]; [reflexivity|]. cbn [filter].
  assert (Hin : existsb (entry_eqb e) before = true).
  { apply existsb_exists. exists e. split; [apply H; now left|].
    apply entry_eqb_refl. }
  rewrite Hin. cbn [negb]. apply IH. intros e' He'. apply H. now right.
Qed.

Lemma in_del (jid : Z) (js : list (Z * Job)) (e : Z * Job) :
  In e (Dict.del Z.eqb jid js) -> In e js.
Proof.
  induction js as [|[k0 v0] js IH]; simpl; [tauto|].
  destruct (k0 =? jid); [now right|].
  intros [H|H]; [now left | right; now apply IH].
Qed.

Lemma stored_snoc (js : list (Z * Job)) (c : Z) (job : Job) :
  Forall (fun k => k < c) (Dict.keys js) ->
  stored_between js (js ++ [(c, job)]) = [(c, job)].
Proof.
  intros Hb. unfold stored_between. rewrite filter_app.
  fold (stored_between js js). rewrite stored_nothing by auto.
  cbn [filter app].
  assert (Hnew : existsb (entry_eqb (c, job)) js = false).
  { apply Bool.not_true_is_false. intros H. apply existsb_exists in H.
    destruct H as ([k v] & Hin & He). unfold entry_eqb in He. cbn in He.
    repeat (apply andb_prop in He; destruct He as [He _]).
    apply Z.eqb_eq in He. subst k.
    rewrite Forall_forall in Hb.
    specialize (Hb c (in_map fst js (c, v) Hin)). lia. }
  now rewrite Hnew.
Qed.

Lemma assigned_ids_from_counter (ops : list table_op) (m : Machine) :
  table_ok (shell m) ->
  assigned_ids ops m
  = map (fun i => (i, i)) (upfrom (job_counter (shell m)) (registrations ops)).
Proof.
  revert m. induction ops as [|[label p | jid] ops IH]; intros m Hok;
    cbn [assigned_ids registrations upfrom apply_op map].
  - reflexivity.
  - pose proof (keeps_register label p m Hok) as [Hok' _].
    rewrite (IH _ Hok'). rewrite register_effect. cbn [snd shell jobs job_counter].
    destruct Hok as [_ Hb]. rewrite set_fresh by exact Hb.
    rewrite stored_snoc by exact Hb. reflexivity.
  - pose proof (keeps_del_job jid m Hok) as [Hok' _].
    rewrite (IH _ Hok'), del_job_counter.
    cbn [del_job bind get_shell put_shell snd shell with_jobs jobs].
    rewrite stored_nothing by (intros e; apply in_del). reflexivity.
Qed.

(** C3: along every sequence of register and remove operations on a
    shell that has just started, the entries stored are, in this order,
    under the keys 1, 2, 3, ..., each job carrying its key as id:
    strictly increasing from 1, so no id is handed out twice, whatever
    was removed in between. *)
Theorem C3_job_ids_increase_from_one (host : Host) (first_pid : Z)
    (ops : list table_op) :
  let ids := assigned_ids ops (init_machine host first_pid) in
  ids = map (fun i => (i, i)) (upfrom 1 (registrations ops))
  /\ map snd ids = map fst ids
  /\ StronglySorted Z.lt (map fst ids)
  /\ NoDup (map fst ids).
Proof.
  intros ids. subst ids. rewrite assigned_ids_from_counter.
  - cbn [job_counter shell init_machine init_shell].
    assert (Hf : forall l : list Z, map fst (map (fun i => (i, i)) l) = l).
    { intros l. rewrite map_map. cbn. apply map_id. }
    assert (Hs : forall l : list Z, map snd (map (fun i => (i, i)) l) = l).
    { intros l. rewrite map_map. cbn. apply map_id. }
    rewrite Hf, Hs. split; [reflexivity|]. split; [reflexivity|]. split.
    + apply upfrom_sorted.
    + apply sorted_keys_NoDup, upfrom_sorted.
  - split; constructor.
Qed.

(** An id that was handed out and then removed is not handed out again:
    the third job of this session gets 3 although 1 and 2 are gone. *)
Lemma id_not_reused_after_removal :
  let p := {| pid := 7; stdout_piped := true |} in
  assigned_ids [Register "a" p; Register "b" p; Remove 2; Remove 1;
                Register "c" p] Demo.start
  = [(1, 1); (2, 2); (3, 3)].
Proof. reflexivity. Qed.

(** ** What a computation leaves alone *)

Section Preserved.

Context {X : Type}.
Variable f : UnixShell -> X.

Lemma preserves_ret {A} (a : A) : preserves f (ret a).
Proof. intros m. reflexivity. Qed.

Lemma preserves_raise {A} (e : exn) : preserves f (@raise A e).
Proof. intros m. reflexivity. Qed.

Lemma preserves_bind {A B} (c : M A) (k : A -> M B) :
  preserves f c -> (forall a, preserves f (k a)) -> preserves f (bind c k).
Proof.
  intros Hc Hk m. unfold bind. specialize (Hc m).
  destruct (c m) as [[e|a] m1]; simpl in Hc; [exact Hc|].
  now rewrite Hk.
Qed.

Lemma preserves_try {A} (c : M A) (h : exn -> option (M A)) :
  preserves f c -> (forall e k, h e = Some k -> preserves f k) ->
  preserves f (try_except c h).
Proof.
  intros Hc Hh m. unfold try_except. specialize (Hc m).
  destruct (c m) as [[e|a] m1]; simpl in Hc; [|exact Hc].
  destruct (h e) as [k|] eqn:E; [|exact Hc]. now rewrite (Hh e k E).
Qed.

Lemma preserves_for_each {A} (l : list A) (body : A -> M unit) :
  (forall x, preserves f (body x)) -> preserves f (for_each l body).
Proof.
  intros H. induction l as [|x l IH]; simpl.
  - apply preserves_ret.
  - apply preserves_bind; [apply H | intros _; exact IH].
Qed.

Lemma preserves_get_shell : preserves f get_shell.
Proof. intros m. reflexivity. Qed.

Lemma preserves_get_world : preserves f get_world.
Proof. intros m. reflexivity. Qed.

Lemma preserves_put_world (w : World) : preserves f (put_world w).
Proof. intros m. reflexivity. Qed.

Lemma preserves_emit (ev : event) : preserves f (emit ev).
Proof. intros m. reflexivity. Qed.

Lemma preserves_print (s : string) : preserves f (print s).
Proof. intros m. reflexivity. Qed.

Hypothesis Hf : ignores_table f.

Lemma preserves_del_job (jid : Z) : preserves f (del_job jid).
Proof. intros m. simpl. apply Hf. Qed.

Lemma preserves_register (label : string) (p : Popen) :
  preserves f (register label p).
Proof. intros m. rewrite register_effect. simpl. apply Hf. Qed.

End Preserved.

Create HintDb pres.

#[local] Hint Resolve preserves_ret preserves_raise preserves_get_shell
  preserves_get_world preserves_put_world preserves_emit preserves_print
  preserves_del_job preserves_register : pres.

Ltac pres_step :=
  match goal with
  | |- preserves _ (bind _ _) => apply preserves_bind; [|intros ?]
  | |- preserves _ (try_except _ _) => apply preserves_try; [|intros ? ? ?]
  | |- preserves _ (for_each _ _) => apply preserves_for_each; intros ?
  | |- preserves _ (match ?x with _ => _ end) => destruct x eqn:?
  | |- preserves _ _ => solve [auto with pres]
  | H : match ?x with _ => _ end = Some _ |- _ => destruct x; try discriminate H
  | H : Some _ = Some _ |- _ => injection H as <-
  end.

Ltac pres_tac := repeat pres_step.

Section JobControlPreserves.

Context {X : Type}.
Variable f : UnixShell -> X.
Hypothesis Hf : ignores_table f.
Variable host : Host.

Lemma preserves_popen (argv : list string) (piped : bool) :
  preserves f (popen host argv piped).
Proof.
  intros m. rewrite popen_spec. destruct argv; [reflexivity|].
  destruct (popen_error host _ _); reflexivity.
Qed.

Lemma preserves_wait (p : Popen) : preserves f (wait host p).
Proof. unfold wait. pres_tac. Qed.

Lemma preserves_os_kill (n : Z) : preserves f (os_kill host n).
Proof. unfold os_kill. pres_tac. Qed.

Lemma preserves_terminate (p : Popen) : preserves f (terminate host p).
Proof. unfold terminate. pres_tac. apply preserves_os_kill. Qed.

Lemma preserves_open_w (path : string) : preserves f (open_w host path).
Proof. unfold open_w. pres_tac. Qed.

Hint Resolve preserves_popen preserves_wait preserves_os_kill
  preserves_terminate preserves_open_w : pres.

Lemma preserves_show_jobs : preserves f show_jobs.
Proof. unfold show_jobs. pres_tac. Qed.

Lemma preserves_foreground_job (args : list string) :
  preserves f (foreground_job host args).
Proof. unfold foreground_job. pres_tac. Qed.

Lemma preserves_kill_job (args : list string) :
  preserves f (kill_job host args).
Proof. unfold kill_job. pres_tac. Qed.

Lemma preserves_show_history_from (h : list string) (i : Z) :
  preserves f (show_history_from i h).
Proof. revert i. induction h as [|cmd h IH]; intros i; simpl; pres_tac. Qed.

Lemma preserves_emit_captured (to_stderr : bool) (d : exn + string) :
  preserves f (emit_captured to_stderr d).
Proof.
  unfold emit_captured, decoded, print_raw, eprint_raw.
  destruct d as [e|[|c s]]; pres_tac.
Qed.

Hint Resolve preserves_show_jobs preserves_foreground_job preserves_kill_job
  preserves_show_history_from preserves_emit_captured : pres.

Lemma preserves_run_single (command : list string) (background : bool)
    (redirect_file : option string) :
  preserves f (run_single host command background redirect_file).
Proof. unfold run_single. pres_tac. Qed.

Lemma preserves_spawn_stages (commands : list (list string)) (n i : nat)
    (r : option string) (ps : list Popen) :
  preserves f (spawn_stages host n i commands r ps).
Proof.
  intros m.
  destruct (spawn_stages_frame host commands n i r ps m) as [Hs _ _ _].
  now rewrite Hs.
Qed.

Hint Resolve preserves_run_single preserves_spawn_stages : pres.

Lemma preserves_execute_pipeline_chain (commands : list (list string))
    (background : bool) (redirect_file : option string) :
  preserves f (execute_pipeline_chain host commands background redirect_file).
Proof. unfold execute_pipeline_chain. pres_tac. Qed.

End JobControlPreserves.

(** ** Built-ins named inside a pipeline *)

(** X13: A command line of several stages is never handed to the built-ins:
    whatever its stages are called, the pipeline leaves the aliases,
    the environment, the shell's directory and the history as they
    were. *)
Theorem pipeline_leaves_settings (host : Host)
    (commands : list (list string)) (background : bool)
    (redirect_file : option string) (m : Machine) :
  List.length commands <> 1%nat ->
  let m' := snd (execute_pipeline host commands background redirect_file m) in
  execute_pipeline host commands background redirect_file m
  = execute_pipeline_chain host commands background redirect_file m
  /\ aliases (shell m') = aliases (shell m)
  /\ environment (shell m') = environment (shell m)
  /\ current_dir (shell m') = current_dir (shell m)
  /\ history (shell m') = history (shell m).
Proof.
  intros Hlen m'.
  assert (E : execute_pipeline host commands background redirect_file m
              = execute_pipeline_chain host commands background
                  redirect_file m).
  { destruct commands as [|c [|c' commands]]; try reflexivity.
    now contradiction Hlen. }
  subst m'. rewrite E. split; [reflexivity|].
  split; [|split; [|split]].
  - apply (preserves_execute_pipeline_chain aliases); intros sh js c;
      reflexivity.
  - apply (preserves_execute_pipeline_chain environment); intros sh js c;
      reflexivity.
  - apply (preserves_execute_pipeline_chain current_dir); intros sh js c;
      reflexivity.
  - apply (preserves_execute_pipeline_chain history); intros sh js c;
      reflexivity.
Qed.

Lemma pipeline_leaves_settings_witness :
  let m' := snd (execute_pipeline Demo.host [["cd"; "/tmp"]; ["cat"]]
                   false None Demo.start) in
  execute_pipeline Demo.host [["cd"; "/tmp"]; ["cat"]] false None Demo.start
  = execute_pipeline_chain Demo.host [["cd"; "/tmp"]; ["cat"]] false None
      Demo.start
  /\ aliases (shell m') = aliases (shell Demo.start)
  /\ environment (shell m') = environment (shell Demo.start)
  /\ current_dir (shell m') = "/"
  /\ history (shell m') = history (shell Demo.start).
Proof.
  apply (pipeline_leaves_settings Demo.host [["cd"; "/tmp"]; ["cat"]]
           false None Demo.start).
  discriminate.
Defined.

(** ** The history *)

Section HistoryKept.

Variable host : Host.

Lemma history_ignores_table : ignores_table history.
Proof. intros sh js c. reflexivity. Qed.

Lemma preserves_history_handle_alias (args : list string) :
  preserves history (handle_alias args).
Proof.
  unfold handle_alias. intros m. unfold bind at 1, get_shell at 1.
  destruct args as [|a args].
  - now rewrite for_each_print.
  - destruct (PyStr.contains "=" a).
    + destruct (PyStr.split_once "=" a). reflexivity.
    + destruct (Dict.get String.eqb a (aliases (shell m))); reflexivity.
Qed.

Lemma preserves_history_handle_export (args : list string) :
  preserves history (handle_export args).
Proof.
  unfold handle_export. apply preserves_for_each. intros arg m.
  unfold bind, get_shell. destruct (PyStr.contains "=" arg).
  - destruct (PyStr.split_once "=" arg) as [name value].
    destruct (putenv_error name value); reflexivity.
  - destruct (Dict.get String.eqb arg (environment (shell m))); reflexivity.
Qed.

Lemma preserves_history_builtin_cd (args : list string) :
  preserves history (builtin_cd host args).
Proof.
  unfold builtin_cd. apply preserves_try.
  - intros m. unfold bind, get_world, chdir.
    destruct (chdir_result host _); reflexivity.
  - intros e k H. destruct (exn_cls e); try discriminate H;
      injection H as <-; apply preserves_print.
Qed.

Lemma preserves_history_execute_builtin (command : list string) :
  preserves history (execute_builtin host command).
Proof.
  pose proof history_ignores_table as Hf.
  pose proof preserves_history_handle_alias.
  pose proof preserves_history_handle_export.
  pose proof preserves_history_builtin_cd.
  pose proof (preserves_show_jobs history Hf).
  pose proof (preserves_foreground_job history Hf host).
  pose proof (preserves_kill_job history Hf host).
  pose proof (preserves_show_history_from history).
  unfold execute_builtin, background_job, show_history.
  destruct command as [|cmd args]; [apply preserves_ret|].
  repeat match goal with
         | |- preserves _ (if ?b then _ else _) => destruct b
         end; pres_tac.
Qed.

Lemma preserves_history_execute_pipeline (commands : list (list string))
    (background : bool) (redirect_file : option string) :
  preserves history (execute_pipeline host commands background redirect_file).
Proof.
  pose proof history_ignores_table as Hf.
  pose proof preserves_history_execute_builtin.
  pose proof (preserves_run_single history Hf host).
  pose proof (preserves_execute_pipeline_chain history Hf host).
  unfold execute_pipeline. pres_tac.
Qed.

End HistoryKept.

Lemma last_n_all {A} (n : nat) (l : list A) :
  (List.length l <= n)%nat -> last_n n l = l.
Proof.
  intros H. unfold last_n.
  replace (List.length l - n)%nat with O by lia. reflexivity.
Qed.

(** X11: A line of whitespace only is ignored; any other line is recorded as
    typed before it is carried out, whatever comes of it, and the
    history holds the last thousand lines. *)
Theorem history_records_lines (host : Host) (line : string) (m : Machine) :
  (List.length (history (shell m)) <= 1000)%nat ->
  let m' := snd (dispatch host line m) in
  (PyStr.strip line = EmptyString -> dispatch host line m = (inr tt, m))
  /\ (PyStr.strip line <> EmptyString ->
      history (shell m') = last_n 1000 (history (shell m) ++ [line])%list)
  /\ (List.length (history (shell m')) <= 1000)%nat.
Proof.
  intros Hlen m'.
  assert (Hh : PyStr.strip line <> EmptyString ->
               history (shell m')
               = last_n 1000 (history (shell m) ++ [line])%list).
  { intros Hne. subst m'. unfold dispatch.
    destruct (PyStr.strip line) eqn:Hs; [now contradiction Hne|].
    unfold bind at 1.
    destruct (parse_command line) as [[commands background] redirect_file].
    cbn [history_append bind get_shell put_shell fst snd].
    rewrite preserves_history_execute_pipeline. cbn [shell history].
    set (h := (history (shell m) ++ [line])%list).
    assert (Hl : List.length h = S (List.length (history (shell m)))).
    { subst h. rewrite length_app. simpl. lia. }
    destruct (Nat.ltb_spec 1000 (List.length h)) as [Hgt|Hle].
    - unfold last_n. replace (List.length h - 1000)%nat with 1%nat by lia.
      now destruct h.
    - now rewrite last_n_all. }
  split; [|split; [exact Hh|]].
  - intros Hs. unfold dispatch. now rewrite Hs.
  - destruct (PyStr.strip line) eqn:Hs.
    + subst m'. unfold dispatch. now rewrite Hs.
    + rewrite Hh by discriminate. unfold last_n.
      rewrite length_skipn, length_app. simpl. lia.
Qed.

Lemma history_records_lines_witness :
  let m' := snd (dispatch Demo.host "nosuch -x" Demo.start) in
  (PyStr.strip "nosuch -x" = EmptyString ->
   dispatch Demo.host "nosuch -x" Demo.start = (inr tt, Demo.start))
  /\ (PyStr.strip "nosuch -x" <> EmptyString ->
      history (shell m') = last_n 1000 ([] ++ ["nosuch -x"])%list)
  /\ (List.length (history (shell m')) <= 1000)%nat.
Proof.
  apply (history_records_lines Demo.host "nosuch -x" Demo.start).
  simpl. lia.
Defined.

(** X12: [history] prints every recorded line once, oldest first, numbered
    from 1 in a field of four, and changes nothing. *)
Theorem show_history_numbers_lines (m : Machine) :
  show_history m
  = (inr tt,
     add_events m
       (map (fun e => Stdout (PyStr.of_Z_width4 (fst e) ++ "  " ++ snd e
                                ++ newline))
          (combine (upfrom 1 (List.length (history (shell m))))
             (history (shell m))))).
Proof.
  unfold show_history, bind, get_shell.
  generalize (history (shell m)) as h. generalize 1 as i. intros i h.
  revert i m. induction h as [|cmd h IH]; intros i m; simpl.
  - now rewrite add_events_nil.
  - unfold bind, print, emit at 1. simpl. rewrite IH.
    unfold add_events. simpl. rewrite <- app_assoc. simpl.
    now rewrite !str_app_assoc.
Qed.

(** ** Job control *)





Lemma fold_max_ge (ks : list Z) (k : Z) : k <= fold_left Z.max ks k.
Proof.
  revert k. induction ks as [|k0 ks IH]; intros k; simpl; [lia|].
  specialize (IH (Z.max k k0)). lia.
Qed.







(** X21: When [fg] finds nothing to wait for it says so and does nothing
    else: no wait, no change to the table or to the world. *)
Theorem fg_complains_and_leaves (host : Host) (m : Machine)
    (args : list string) (text : string) :
  fg_fails m args text ->
  foreground_job host args m = (inr tt, add_events m [Stdout (text ++ newline)]).
Proof.
  intros H. unfold foreground_job, bind at 1, get_shell at 1.
  destruct H as [Hj | a rest Ha | a rest n Ha Hget].
  - rewrite Hj. reflexivity.
  - rewrite Ha. reflexivity.
  - rewrite Ha, Hget. unfold print, emit, add_events. simpl.
    now rewrite ?str_app_assoc.
Qed.

Lemma fg_complains_and_leaves_witness :
  foreground_job Demo.host ["7"] Demo.start
  = (inr tt,
     add_events Demo.start [Stdout ("fg: job 7 not found" ++ newline)]).
Proof.
  apply (fg_complains_and_leaves Demo.host Demo.start ["7"]).
  apply (fg_not_found Demo.start "7" [] 7); reflexivity.
Defined.

(** X22: [kill] on the id of a job, when signalling raises nothing it does
    not forgive: the job's process gets one [SIGTERM] unless it is known
    to have ended, the termination is announced, and the entry is
    removed at once; the shell does not wait and the world's record of
    the process is unchanged. *)
Theorem kill_job_signals_and_removes (host : Host) (a : string)
    (rest : list string) (m : Machine) (n : Z) (job : Job) :
  PyStr.to_Z a = Some n ->
  Dict.get Z.eqb n (jobs (shell m)) = Some job ->
  (forall e, poll (world m) (process job) = None ->
             kill_error host (pid (process job)) = Some e ->
             exn_cls e = ProcessLookupError) ->
  kill_job host (a :: rest) m
  = (inr tt,
     {| shell := with_jobs (shell m) (Dict.del Z.eqb n (jobs (shell m)));
        world := world m;
        trace := (trace m ++ sigterm_events host (world m) (process job)
                    ++ [Stdout ("[" ++ PyStr.of_Z n ++ "] Terminated: "
                                  ++ command job ++ newline)])%list |}).
Proof.
  intros Ha Hget Hok.
  unfold kill_job, try_except. rewrite Ha.
  unfold bind at 1, get_shell at 1. rewrite Hget.
  unfold bind at 1, terminate, bind at 1, get_world at 1.
  unfold sigterm_events.
  destruct (poll (world m) (process job)) eqn:Hp.
  - cbn. rewrite !str_app_assoc. reflexivity.
  - unfold try_except, os_kill.
    destruct (kill_error host (pid (process job))) as [e|] eqn:Hk.
    + unfold raise. rewrite (Hok e eq_refl eq_refl). cbn.
      rewrite !str_app_assoc. reflexivity.
    + cbn. rewrite <- app_assoc, !str_app_assoc. reflexivity.
Qed.

Lemma kill_job_signals_and_removes_witness :
  let host := host_delivering_signals in
  let m := snd (dispatch host "sleep 5 &" (init_machine host 100)) in
  kill_job host ["1"] m
  = (inr tt,
     {| shell := with_jobs (shell m) [];
        world := world m;
        trace := (trace m ++ [Signalled 100;
                              Stdout ("[1] Terminated: sleep 5" ++ newline)])%list |}).
Proof.
  intros host m.
  apply (kill_job_signals_and_removes host "1" [] m 1
           {| job_id := 1; command := "sleep 5";
              process := {| pid := 100; stdout_piped := true |};
              status := "running" |} eq_refl eq_refl).
  intros e _ H. discriminate H.
Defined.

(** ** Reaping at the prompt *)

Lemma sorted_filter (keep : Z * Job -> bool) (js : list (Z * Job)) :
  StronglySorted Z.lt (Dict.keys js) ->
  StronglySorted Z.lt (Dict.keys (filter keep js)).
Proof.
  induction js as [|[k v] js IH]; simpl; intros H; [exact H|].
  inversion H as [|? ? Hs Hall]; subst.
  destruct (keep (k, v)); simpl; [|now apply IH].
  constructor; [now apply IH|].
  rewrite Forall_forall in *. intros k' Hk. apply Hall.
  unfold Dict.keys in *. apply in_map_iff in Hk.
  destruct Hk as (e & <- & He). apply filter_In in He.
  apply in_map. tauto.
Qed.

Lemma filter_filter_same {A} (p : A -> bool) (l : list A) :
  filter p (filter p l) = filter p l.
Proof.
  induction l as [|x l IH]; simpl; [reflexivity|].
  destruct (p x) eqn:E; simpl; [rewrite E, IH|]; auto.
Qed.

Lemma filter_filter_neg {A} (p : A -> bool) (l : list A) :
  filter (fun x => negb (p x)) (filter p l) = [].
Proof.
  induction l as [|x l IH]; simpl; [reflexivity|].
  destruct (p x) eqn:E; simpl; [rewrite E|]; auto.
Qed.

Lemma reap_finished_effect (m : Machine) :
  StronglySorted Z.lt (Dict.keys (jobs (shell m))) ->
  reap_finished m
  = (inr tt,
     add_events
       (set_jobs m (filter (fun e => is_running (world m) (snd e))
                      (jobs (shell m))))
       (map (fun e => Stdout ("[" ++ PyStr.of_Z (fst e) ++ "] Done: "
                                ++ command (snd e) ++ newline))
          (filter (fun e => negb (is_running (world m) (snd e)))
             (jobs (shell m))))).
Proof.
  intros Hs. apply sorted_keys_NoDup in Hs.
  unfold reap_finished, bind at 1, get_shell at 1, bind at 1,
    get_world at 1, bind at 1.
  rewrite for_each_print. rewrite for_each_del_job. cbn [shell add_events].
  unfold completed. rewrite del_all_rejected by exact Hs.
  unfold add_events, set_jobs. cbn. do 3 f_equal.
  apply map_ext. intros e. now rewrite !str_app_assoc.
Qed.

(** X23: The reaping before each prompt announces every job that has ended,
    in table order, and keeps exactly the running ones; done again
    while no child changes state, it has nothing more to say and
    changes nothing. *)
Theorem reap_finished_announces_once (m : Machine) :
  StronglySorted Z.lt (Dict.keys (jobs (shell m))) ->
  let m' := snd (reap_finished m) in
  trace m'
  = (trace m
       ++ map (fun e => Stdout ("[" ++ PyStr.of_Z (fst e) ++ "] Done: "
                                  ++ command (snd e) ++ newline))
            (filter (fun e => negb (is_running (world m) (snd e)))
               (jobs (shell m))))%list
  /\ jobs (shell m')
     = filter (fun e => is_running (world m) (snd e)) (jobs (shell m))
  /\ world m' = world m
  /\ reap_finished m' = (inr tt, m').
Proof.
  intros Hs m'. subst m'. rewrite (reap_finished_effect m Hs).
  cbn [snd]. split; [reflexivity|]. split; [reflexivity|].
  split; [reflexivity|].
  rewrite reap_finished_effect.
  - cbn [add_events set_jobs shell world jobs with_jobs trace].
    rewrite filter_filter_same.
    rewrite (filter_filter_neg (fun e => is_running (world m) (snd e))).
    cbn [map]. rewrite add_events_nil. reflexivity.
  - cbn. now apply sorted_filter.
Qed.

Lemma reap_finished_announces_once_witness :
  let m := child_exit 100 0
             (snd (dispatch Demo.host "ls | wc &"
                     (snd (dispatch Demo.host "sleep 5 &" Demo.start)))) in
  let m' := snd (reap_finished m) in
  trace m' = (trace m ++ [Stdout ("[1] Done: sleep 5" ++ newline)])%list
  /\ Dict.keys (jobs (shell m')) = [2]
  /\ reap_finished m' = (inr tt, m').
Proof.
  intros m m'.
  destruct (reap_finished_announces_once m) as (Ht & Hj & _ & Hi).
  - repeat constructor.
  - split; [exact Ht|]. split; [|exact Hi]. subst m'. now rewrite Hj.
Defined.

(** ** Tokens *)

Lemma chars_app (a b : string) : chars (a ++ b) = (chars a ++ chars b)%list.
Proof. induction a as [|c a IH]; simpl; [reflexivity | now rewrite IH]. Qed.

Lemma chars_lstrip_by (p : ascii -> bool) (s : string) (c : ascii) :
  In c (chars (PyStr.lstrip_by p s)) -> In c (chars s).
Proof.
  induction s as [|d s IH]; simpl; [tauto|].
  destruct (p d); [intros H; right; now apply IH | tauto].
Qed.

Lemma chars_rstrip_by (p : ascii -> bool) (s : string) (c : ascii) :
  In c (chars (PyStr.rstrip_by p s)) -> In c (chars s).
Proof.
  induction s as [|d s IH]; simpl; [tauto|].
  destruct (PyStr.rstrip_by p s) eqn:E.
  - destruct (p d); simpl; [tauto|]. intros [H|[]]. now left.
  - simpl. intros [H|H]; [now left | right; now apply IH].
Qed.

Lemma lstrip_is_lstrip_by (s : string) :
  PyStr.lstrip s = PyStr.lstrip_by PyStr.is_space s.
Proof. induction s as [|c s IH]; simpl; [reflexivity | now rewrite IH]. Qed.

Lemma rstrip_is_rstrip_by (s : string) :
  PyStr.rstrip s = PyStr.rstrip_by PyStr.is_space s.
Proof. induction s as [|c s IH]; simpl; [reflexivity | now rewrite IH]. Qed.

Lemma chars_strip (s : string) (c : ascii) :
  In c (chars (PyStr.strip s)) -> In c (chars s).
Proof.
  unfold PyStr.strip. rewrite rstrip_is_rstrip_by, lstrip_is_lstrip_by.
  intros H. now apply chars_rstrip_by, chars_lstrip_by in H.
Qed.

Lemma chars_split (sep : ascii) (s part : string) (c : ascii) :
  In part (PyStr.split sep s) -> In c (chars part) ->
  In c (chars s) /\ c <> sep.
Proof.
  revert part. induction s as [|d s IH]; simpl; intros part Hp Hc.
  - destruct Hp as [<-|[]]. destruct Hc.
  - destruct (Ascii.eqb_spec d sep) as [->|Hne].
    + destruct Hp as [<-|Hp]; [destruct Hc|].
      destruct (IH part Hp Hc). split; [now right | assumption].
    + destruct (PyStr.split sep s) as [|p ps] eqn:E.
      * destruct Hp as [<-|[]]. destruct Hc as [<-|[]].
        split; [now left | assumption].
      * destruct Hp as [<-|Hp].
        -- destruct Hc as [<-|Hc]; [split; [now left | assumption]|].
           destruct (IH p (or_introl eq_refl) Hc). split; [now right | assumption].
        -- destruct (IH part (or_intror Hp) Hc). split; [now right | assumption].
Qed.

Lemma words_from_tokens (s tok t : string) :
  (forall c, In c (chars tok) -> PyStr.is_space c = false) ->
  In t (PyStr.words_from tok s) ->
  t <> EmptyString
  /\ (forall c, In c (chars t) ->
        PyStr.is_space c = false /\ In c (chars tok ++ chars s)%list).
Proof.
  revert tok. induction s as [|d s IH]; simpl; intros tok Htok Ht.
  - destruct tok as [|a tok]; [destruct Ht|]. destruct Ht as [<-|[]].
    split; [discriminate|]. intros c Hc. split; [now apply Htok|].
    now rewrite app_nil_r.
  - destruct (PyStr.is_space d) eqn:Hd.
    + assert (Hrest : In t (PyStr.words_from EmptyString s) ->
                t <> EmptyString
                /\ (forall c, In c (chars t) ->
                      PyStr.is_space c = false
                      /\ In c (chars tok ++ d :: chars s)%list)).
      { intros H. destruct (IH EmptyString (fun c (F : In c []) => match F with end) H)
          as [Hne Hcs].
        split; [exact Hne|]. intros c Hc. destruct (Hcs c Hc) as [Hsp Hin].
        split; [exact Hsp|]. apply in_or_app. right. now right. }
      destruct tok as [|a tok]; [now apply Hrest|].
      destruct Ht as [<-|Ht]; [|now apply Hrest].
      split; [discriminate|]. intros c Hc. split; [now apply Htok|].
      apply in_or_app. now left.
    + destruct (IH (tok ++ String d EmptyString) ) with (2 := Ht) as [Hne Hcs].
      * intros c Hc. rewrite chars_app in Hc. apply in_app_or in Hc.
        destruct Hc as [Hc|[<-|[]]]; [now apply Htok | exact Hd].
      * split; [exact Hne|]. intros c Hc. destruct (Hcs c Hc) as [Hsp Hin].
        split; [exact Hsp|]. rewrite chars_app, <- app_assoc in Hin.
        exact Hin.
Qed.

Lemma stages_tokens (s : string) (stage : list string) (tok : string) :
  In stage (stages s) -> In tok stage ->
  tok <> EmptyString
  /\ (forall c, In c (chars tok) ->
        PyStr.is_space c = false /\ c <> "|"%char /\ In c (chars s)).
Proof.
  unfold stages. intros Hst Htok. apply in_map_iff in Hst.
  destruct Hst as (part & <- & Hpart).
  destruct (words_from_tokens (PyStr.strip part) EmptyString tok) as [Hne Hcs];
    [intros c [] | exact Htok |].
  split; [exact Hne|]. intros c Hc. destruct (Hcs c Hc) as [Hsp Hin].
  simpl in Hin. apply chars_strip in Hin.
  destruct (chars_split "|" s part c Hpart Hin). auto.
Qed.

Lemma contains_false_chars (sep : ascii) (s : string) (c : ascii) :
  PyStr.contains sep s = false -> In c (chars s) -> c <> sep.
Proof.
  induction s as [|d s IH]; simpl; [tauto|].
  destruct (Ascii.eqb_spec d sep); simpl; [discriminate|].
  intros H [<-|Hc]; [assumption | now apply IH].
Qed.

Lemma split_hd_in (sep : ascii) (s : string) :
  In (nth 0 (PyStr.split sep s) EmptyString) (PyStr.split sep s).
Proof.
  destruct (split_cons sep s) as (tail & -> & _). now left.
Qed.

(** X1: Every token the parser hands on is a non-empty run of characters
    that are neither whitespace, nor [|], nor [>]. *)
Theorem parsed_tokens_are_clean (line : string) (stage : list string)
    (tok : string) :
  In stage (fst (fst (parse_command line))) ->
  In tok stage ->
  tok <> EmptyString
  /\ (forall c, In c (chars tok) ->
        PyStr.is_space c = false /\ c <> "|"%char /\ c <> ">"%char).
Proof.
  unfold parse_command.
  destruct (strip_background line) as [body bg].
  destruct (PyStr.contains ">" body) eqn:Hgt; cbn [fst]; intros Hst Htok;
    destruct (stages_tokens _ stage tok Hst Htok) as [Hne Hcs];
    (split; [exact Hne|]); intros c Hc;
    destruct (Hcs c Hc) as (Hsp & Hbar & Hin);
    (split; [exact Hsp|]); (split; [exact Hbar|]).
  - apply chars_strip in Hin.
    exact (proj2 (chars_split ">" body _ c (split_hd_in ">" body) Hin)).
  - exact (contains_false_chars ">" body c Hgt Hin).
Qed.

Lemma parsed_tokens_are_clean_witness :
  "-la'" <> EmptyString
  /\ (forall c, In c (chars "-la'") ->
        PyStr.is_space c = false /\ c <> "|"%char /\ c <> ">"%char).
Proof.
  apply (parsed_tokens_are_clean "alias ll='ls -la' | cat > out &"
           ["alias"; "ll='ls"; "-la'"] "-la'").
  - left. reflexivity.
  - right. right. left. reflexivity.
Defined.



(** ** Whitespace around a line *)

Lemma lstrip_blank_prefix (ws s : string) :
  blank ws -> PyStr.lstrip (ws ++ s) = PyStr.lstrip s.
Proof.
  induction ws as [|c ws IH]; simpl; intros H; [reflexivity|].
  rewrite (H c) by now left. apply IH. intros d Hd. apply H. now right.
Qed.

Lemma rstrip_blank (ws : string) : blank ws -> PyStr.rstrip ws = EmptyString.
Proof.
  induction ws as [|c ws IH]; simpl; intros H; [reflexivity|].
  rewrite IH by (intros d Hd; apply H; now right).
  now rewrite (H c) by now left.
Qed.

Lemma rstrip_blank_suffix (s ws : string) :
  blank ws -> PyStr.rstrip (s ++ ws) = PyStr.rstrip s.
Proof.
  intros H. induction s as [|c s IH]; simpl.
  - now apply rstrip_blank.
  - now rewrite IH.
Qed.

Lemma lstrip_blank_suffix (s ws : string) :
  blank ws ->
  PyStr.lstrip (s ++ ws)
  = match PyStr.lstrip s with
    | EmptyString => EmptyString
    | t => t ++ ws
    end.
Proof.
  intros H. induction s as [|c s IH]; simpl.
  - now apply lstrip_blank.
  - destruct (PyStr.is_space c); [exact IH | reflexivity].
Qed.

Lemma strip_blank_around (ws1 s ws2 : string) :
  blank ws1 -> blank ws2 ->
  PyStr.strip (ws1 ++ s ++ ws2) = PyStr.strip s.
Proof.
  intros H1 H2. unfold PyStr.strip.
  rewrite lstrip_blank_prefix by exact H1.
  rewrite lstrip_blank_suffix by exact H2.
  destruct (PyStr.lstrip s); [reflexivity|].
  now apply rstrip_blank_suffix.
Qed.

(** X3: Whitespace before and after a command line changes nothing of its
    parse. *)
Theorem parse_ignores_surrounding_whitespace (ws1 line ws2 : string) :
  blank ws1 -> blank ws2 ->
  parse_command (ws1 ++ line ++ ws2) = parse_command line.
Proof.
  intros H1 H2. unfold parse_command, strip_background.
  now rewrite strip_blank_around.
Qed.

Lemma parse_ignores_surrounding_whitespace_witness :
  parse_command ("  " ++ "ls -l | wc &" ++ String (ascii_of_nat 9) " ")
  = parse_command "ls -l | wc &".
Proof.
  apply (parse_ignores_surrounding_whitespace "  " "ls -l | wc &"
           (String (ascii_of_nat 9) " "));
    intros c H; simpl in H;
    repeat (destruct H as [<-|H]; [reflexivity|]); destruct H.
Defined.

(** ** Aliases, the environment and the directory *)

Lemma get_set_str {V} (k k' : string) (v : V) (d : list (string * V)) :
  Dict.get String.eqb k (Dict.set String.eqb k' v d)
  = if String.eqb k' k then Some v else Dict.get String.eqb k d.
Proof.
  induction d as [|[k0 v0] d IH]; simpl.
  - reflexivity.
  - destruct (String.eqb_spec k0 k') as [->|Hne]; simpl.
    + destruct (String.eqb k' k); reflexivity.
    + destruct (String.eqb_spec k0 k) as [->|Hne'].
      * destruct (String.eqb_spec k' k); [congruence | reflexivity].
      * exact IH.
Qed.

Lemma split_once_assignment (sep : ascii) (name value : string) :
  PyStr.contains sep name = false ->
  PyStr.contains sep (name ++ String sep value) = true
  /\ PyStr.split_once sep (name ++ String sep value) = (name, value).
Proof.
  induction name as [|c name IH]; simpl; intros H.
  - now rewrite Ascii.eqb_refl.
  - destruct (Ascii.eqb c sep); [discriminate|]. simpl in H.
    destruct (IH H) as [-> ->]. now split.
Qed.

(** X4: Defining an alias and using it: after [alias name=value] the name is
    bound to the value without the quotes around it, a command that
    starts with the name expands to the value's words followed by its
    own arguments, the other aliases are as before and nothing is
    printed. *)
Theorem alias_defined_then_expanded (name value : string)
    (more : list string) (m : Machine) :
  PyStr.contains "=" name = false ->
  let m' := snd (handle_alias ((name ++ "=" ++ value) :: more) m) in
  let stored := PyStr.strip_by is_quote value in
  Dict.get String.eqb name (aliases (shell m')) = Some stored
  /\ (forall args, expand_aliases (aliases (shell m')) (name :: args)
                   = (PyStr.words stored ++ args)%list)
  /\ (forall k, k <> name ->
        Dict.get String.eqb k (aliases (shell m'))
        = Dict.get String.eqb k (aliases (shell m)))
  /\ trace m' = trace m.
Proof.
  intros Hname m' stored.
  destruct (split_once_assignment "=" name value Hname) as [Hc Hs].
  assert (E : aliases (shell m')
              = Dict.set String.eqb name stored (aliases (shell m))
              /\ trace m' = trace m).
  { subst m'. unfold handle_alias, bind, get_shell.
    change (name ++ "=" ++ value) with (name ++ String "=" value).
    rewrite Hc, Hs. split; reflexivity. }
  destruct E as [Ea Et].
  assert (Hget : Dict.get String.eqb name (aliases (shell m')) = Some stored).
  { rewrite Ea, get_set_str. now rewrite String.eqb_refl. }
  split; [exact Hget|]. split; [|split; [|exact Et]].
  - intros args. unfold expand_aliases. now rewrite Hget.
  - intros k Hk. rewrite Ea, get_set_str.
    destruct (String.eqb_spec name k); [congruence | reflexivity].
Qed.

Lemma alias_defined_then_expanded_witness :
  let m' := snd (handle_alias ["gs=" ++ "'git'"] Demo.start) in
  Dict.get String.eqb "gs" (aliases (shell m')) = Some "git"
  /\ expand_aliases (aliases (shell m')) ["gs"; "status"] = ["git"; "status"]
  /\ Dict.get String.eqb "ll" (aliases (shell m')) = Some "ls -la".
Proof.
  destruct (alias_defined_then_expanded "gs" "'git'" [] Demo.start eq_refl)
    as (H1 & H2 & H3 & _).
  split; [exact H1|]. split; [exact (H2 ["status"])|].
  rewrite H3 by discriminate. reflexivity.
Defined.

Lemma putenv_accepts (name value : string) :
  PyStr.contains "=" name = false ->
  name <> EmptyString ->
  PyStr.contains (ascii_of_nat 0) name = false ->
  PyStr.contains (ascii_of_nat 0) value = false ->
  putenv_error name value = None.
Proof.
  intros H1 H2 H3 H4. unfold putenv_error. rewrite H3, H4, H1. cbn.
  destruct name; [now contradiction H2 | reflexivity].
Qed.

Lemma handle_export_assignment (name value : string) (m : Machine) :
  PyStr.contains "=" name = false ->
  putenv_error name value = None ->
  handle_export [name ++ "=" ++ value] m
  = (inr tt,
     {| shell := with_environment (shell m)
                   (Dict.set String.eqb name value (environment (shell m)));
        world := with_environ (world m)
                   (Dict.set String.eqb name value (environ (world m)));
        trace := trace m |}).
Proof.
  intros Hname Hput.
  destruct (split_once_assignment "=" name value Hname) as [Hc Hs].
  unfold handle_export. cbn [for_each].
  unfold bind, get_shell, put_shell.
  change (name ++ "=" ++ value) with (name ++ String "=" value).
  rewrite Hc, Hs, Hput. reflexivity.
Qed.

(** X6: Exporting a variable and showing it: for a name that is not
    empty and a value, both without null byte, after
    [export name=value] the variable has the value in the shell's
    environment, the one handed to children, and in the process
    environment; [export name] then prints [name=value]. *)
Theorem export_sets_then_shows (name value : string) (m : Machine) :
  PyStr.contains "=" name = false ->
  name <> EmptyString ->
  PyStr.contains (ascii_of_nat 0) name = false ->
  PyStr.contains (ascii_of_nat 0) value = false ->
  let m' := snd (handle_export [name ++ "=" ++ value] m) in
  Dict.get String.eqb name (environment (shell m')) = Some value
  /\ Dict.get String.eqb name (environ (world m')) = Some value
  /\ trace m' = trace m
  /\ handle_export [name] m'
     = (inr tt, add_events m' [Stdout (name ++ "=" ++ value ++ newline)]).
Proof.
  intros Hname Hne Hn0 Hv0 m'. subst m'.
  rewrite (handle_export_assignment name value m Hname
             (putenv_accepts name value Hname Hne Hn0 Hv0)).
  cbn [snd shell world trace with_environment with_environ
                    environment environ].
  rewrite !get_set_str, String.eqb_refl.
  split; [reflexivity|]. split; [reflexivity|]. split; [reflexivity|].
  unfold handle_export. cbn [for_each]. unfold bind, get_shell.
  rewrite Hname. cbn [shell with_environment environment].
  rewrite get_set_str, String.eqb_refl.
  unfold print, emit, add_events, ret. cbn.
  now rewrite !str_app_assoc.
Qed.

Lemma export_sets_then_shows_witness :
  let m' := snd (handle_export ["EDITOR=" ++ "vi"] Demo.start) in
  Dict.get String.eqb "EDITOR" (environment (shell m')) = Some "vi"
  /\ Dict.get String.eqb "EDITOR" (environ (world m')) = Some "vi"
  /\ trace m' = trace Demo.start
  /\ handle_export ["EDITOR"] m'
     = (inr tt, add_events m' [Stdout ("EDITOR=" ++ "vi" ++ newline)]).
Proof.
  apply (export_sets_then_shows "EDITOR" "vi" Demo.start);
    [reflexivity | discriminate | reflexivity | reflexivity].
Defined.

Lemma builtin_cd_success (host : Host) (path dir : string)
    (rest : list string) (m : Machine) :
  chdir_result host path = inr dir ->
  builtin_cd host (path :: rest) m
  = (inr tt,
     {| shell := {| jobs := jobs (shell m);
                    job_counter := job_counter (shell m);
                    history := history (shell m);
                    aliases := aliases (shell m);
                    environment :=
                      Dict.set String.eqb "PWD" dir (environment (shell m));
                    current_dir := dir |};
        world := {| procs := procs (world m);
                    next_pid := next_pid (world m);
                    cwd := dir;
                    environ := environ (world m) |};
        trace := trace m |}).
Proof.
  intros Hc.
  unfold builtin_cd, try_except, bind at 1, get_world at 1, chdir.
  rewrite Hc. reflexivity.
Qed.

(** X8: After a [cd] that succeeds, the shell's directory, the directory of
    the process and [PWD] in the environment handed to children are all
    the directory the host reports; nothing is printed, and [pwd] then
    prints that directory. *)
Theorem cd_moves_everything_together (host : Host) (path dir : string)
    (rest : list string) (m : Machine) :
  chdir_result host path = inr dir ->
  let m' := snd (builtin_cd host (path :: rest) m) in
  fst (builtin_cd host (path :: rest) m) = inr tt
  /\ current_dir (shell m') = dir
  /\ cwd (world m') = dir
  /\ Dict.get String.eqb "PWD" (environment (shell m')) = Some dir
  /\ trace m' = trace m
  /\ jobs (shell m') = jobs (shell m)
  /\ execute_builtin host ["pwd"] m'
     = (inr true, add_events m' [Stdout (dir ++ newline)]).
Proof.
  intros Hc m'.
  subst m'. rewrite (builtin_cd_success host path dir rest m Hc). cbn [fst snd shell world trace current_dir cwd
                              environment jobs].
  rewrite get_set_str, String.eqb_refl.
  repeat (split; [reflexivity|]). reflexivity.
Qed.

Lemma cd_moves_everything_together_witness :
  let m' := snd (builtin_cd Demo.host ["/tmp"] Demo.start) in
  current_dir (shell m') = "/tmp"
  /\ cwd (world m') = "/tmp"
  /\ Dict.get String.eqb "PWD" (environment (shell m')) = Some "/tmp"
  /\ execute_builtin Demo.host ["pwd"] m'
     = (inr true, add_events m' [Stdout ("/tmp" ++ newline)]).
Proof.
  destruct (cd_moves_everything_together Demo.host "/tmp" "/tmp" []
              Demo.start eq_refl) as (_ & H1 & H2 & H3 & _ & _ & H4).
  auto.
Defined.

(** X9: A [cd] to a path that does not exist says so and changes nothing:
    not the directory, not the environment, not the table. *)
Theorem cd_missing_path_changes_nothing (host : Host) (path : string)
    (rest : list string) (m : Machine) (e : exn) :
  chdir_result host path = inl e ->
  exn_cls e = FileNotFoundError ->
  execute_builtin host ("cd" :: path :: rest) m
  = (inr true,
     add_events m
       [Stdout ("cd: " ++ path ++ ": No such file or directory" ++ newline)]).
Proof.
  intros Hc He. unfold execute_builtin.
  change (("cd" =? "cd")%string) with true. cbv iota.
  unfold bind at 1, builtin_cd, try_except, bind at 1, get_world at 1.
  unfold chdir. rewrite Hc. unfold raise. rewrite He.
  unfold print, emit, add_events, ret. cbn.
  now rewrite !str_app_assoc.
Qed.

Lemma cd_missing_path_changes_nothing_witness :
  execute_builtin Demo.host ["cd"; "/missing"] Demo.start
  = (inr true,
     add_events Demo.start
       [Stdout ("cd: " ++ "/missing" ++ ": No such file or directory"
                  ++ newline)]).
Proof.
  exact (cd_missing_path_changes_nothing Demo.host "/missing" [] Demo.start
           _ eq_refl eq_refl).
Defined.

(** ** External commands *)

Lemma execute_builtin_external (host : Host) (cmd : string)
    (args : list string) (m : Machine) :
  is_builtin_name cmd = false ->
  execute_builtin host (cmd :: args) m = (inr false, m).
Proof.
  unfold is_builtin_name, builtin_names. cbn [existsb].
  intros H. repeat (apply orb_false_elim in H; destruct H as [?E H]).
  unfold execute_builtin.
  repeat match goal with
         | E : String.eqb cmd _ = false |- _ => rewrite E; clear E
         end.
  reflexivity.
Qed.

(** X14: A command that is no built-in and that the host cannot find is
    reported as [command not found]; no process is made and no job.
    When a redirect target was given it has been opened by then, and it
    is not closed. *)
Theorem external_command_not_found (host : Host) (c : list string)
    (cmd : string) (args : list string) (background : bool)
    (redirect_file : option string) (m : Machine) (e : exn) :
  expand_aliases (aliases (shell m)) c = cmd :: args ->
  is_builtin_name cmd = false ->
  (forall path, truthy redirect_file = Some path ->
                open_error host path = None) ->
  popen_error host (cmd :: args) (current_dir (shell m)) = Some e ->
  exn_cls e = FileNotFoundError ->
  execute_pipeline host [c] background redirect_file m
  = (inr tt,
     add_events m
       (opening_events redirect_file
          ++ [Stdout (cmd ++ ": command not found" ++ newline)])).
Proof.
  intros Hexp Hext Hopen Herr Hcls.
  unfold execute_pipeline, bind at 1, get_shell at 1. rewrite Hexp.
  unfold bind at 1. rewrite (execute_builtin_external host cmd args m Hext).
  unfold try_except, run_single, bind at 1, opening_events.
  destruct (truthy redirect_file) as [path|] eqn:Htr.
  - unfold open_w. rewrite (Hopen path eq_refl).
    unfold emit at 1. unfold bind at 1. rewrite popen_spec. cbn [shell].
    rewrite Herr, Hcls. unfold print, emit, add_events. cbn.
    rewrite <- app_assoc, !str_app_assoc. reflexivity.
  - cbn [ret]. unfold bind at 1. rewrite popen_spec, Herr, Hcls.
    unfold print, emit, add_events. cbn.
    rewrite !str_app_assoc. reflexivity.
Qed.

Lemma external_command_not_found_witness :
  execute_pipeline Demo.host [["nosuch"; "-x"]] false (Some "out.txt")
    Demo.start
  = (inr tt,
     add_events Demo.start
       [Opened "out.txt";
        Stdout ("nosuch" ++ ": command not found" ++ newline)]).
Proof.
  apply (external_command_not_found Demo.host ["nosuch"; "-x"] "nosuch"
           ["-x"] false (Some "out.txt") Demo.start
           (Exn FileNotFoundError
              "[Errno 2] No such file or directory: 'nosuch'"));
    reflexivity.
Defined.

(** X15: When the redirect target cannot be created because a directory on
    its path is missing, the single-command branch blames the command:
    it prints [command not found] for a command that was never tried. *)
Theorem missing_redirect_directory_blames_command (host : Host)
    (c : list string) (cmd : string) (args : list string)
    (background : bool) (redirect_file : option string) (path : string)
    (m : Machine) (e : exn) :
  expand_aliases (aliases (shell m)) c = cmd :: args ->
  is_builtin_name cmd = false ->
  truthy redirect_file = Some path ->
  open_error host path = Some e ->
  exn_cls e = FileNotFoundError ->
  execute_pipeline host [c] background redirect_file m
  = (inr tt,
     add_events m [Stdout (cmd ++ ": command not found" ++ newline)]).
Proof.
  intros Hexp Hext Htr Hopen Hcls.
  unfold execute_pipeline, bind at 1, get_shell at 1. rewrite Hexp.
  unfold bind at 1. rewrite (execute_builtin_external host cmd args m Hext).
  unfold try_except, run_single, bind at 1. rewrite Htr.
  unfold open_w. rewrite Hopen. unfold raise. rewrite Hcls.
  unfold print, emit, add_events. cbn.
  rewrite !str_app_assoc. reflexivity.
Qed.

(** X16: A single command sent to the background, once started, becomes a
    job under the counter's value, labelled with its words after alias
    expansion; its process id is printed, nothing is waited for, and a
    redirect target is closed again on the shell's side. *)
Theorem background_command_becomes_job (host : Host) (c : list string)
    (cmd : string) (args : list string) (redirect_file : option string)
    (m : Machine) :
  expand_aliases (aliases (shell m)) c = cmd :: args ->
  is_builtin_name cmd = false ->
  (forall path, truthy redirect_file = Some path ->
                open_error host path = None) ->
  popen_error host (cmd :: args) (current_dir (shell m)) = None ->
  let id := job_counter (shell m) in
  let p := {| pid := next_pid (world m);
              stdout_piped := match truthy redirect_file with
                              | Some _ => false
                              | None => true
                              end |} in
  let job := {| job_id := id; command := PyStr.join " " (cmd :: args);
                process := p; status := "running" |} in
  execute_pipeline host [c] true redirect_file m
  = (inr tt,
     {| shell := {| jobs := Dict.set Z.eqb id job (jobs (shell m));
                    job_counter := id + 1;
                    history := history (shell m);
                    aliases := aliases (shell m);
                    environment := environment (shell m);
                    current_dir := current_dir (shell m) |};
        world := spawned_world (world m);
        trace := (trace m ++ opening_events redirect_file
                    ++ [Spawned (cmd :: args) (pid p);
                        Stdout ("[" ++ PyStr.of_Z id ++ "] "
                                  ++ PyStr.of_Z (pid p) ++ newline)]
                    ++ closing_events redirect_file)%list |}).
Proof.
  intros Hexp Hext Hopen Herr id p job.
  unfold execute_pipeline, bind at 1, get_shell at 1. rewrite Hexp.
  unfold bind at 1. rewrite (execute_builtin_external host cmd args m Hext).
  unfold try_except, run_single, bind at 1, opening_events, closing_events.
  subst p job id.
  destruct (truthy redirect_file) as [path|] eqn:Htr.
  - unfold open_w. rewrite (Hopen path eq_refl).
    unfold emit at 1. unfold bind at 1. rewrite popen_spec. cbn [shell].
    rewrite Herr. unfold bind at 1. rewrite register_effect.
    unfold emit, spawned_world. cbn.
    rewrite <- !app_assoc. reflexivity.
  - cbn [ret]. unfold bind at 1. rewrite popen_spec, Herr.
    unfold bind at 1. rewrite register_effect. unfold ret, spawned_world.
    cbn. rewrite <- ?app_assoc. reflexivity.
Qed.

Lemma background_command_becomes_job_witness :
  let r := execute_pipeline Demo.host [["ll"; "/tmp"]] true None Demo.start in
  fst r = inr tt
  /\ map (fun e => command (snd e)) (jobs (shell (snd r))) = ["ls -la /tmp"]
  /\ trace (snd r) = [Spawned ["ls"; "-la"; "/tmp"] 100;
                      Stdout ("[1] 100" ++ newline)].
Proof.
  intros r. subst r.
  rewrite (background_command_becomes_job Demo.host ["ll"; "/tmp"] "ls"
             ["-la"; "/tmp"] None Demo.start eq_refl eq_refl
             (fun path H => eq_refl) eq_refl).
  repeat split.
Defined.

Lemma missing_redirect_directory_blames_command_witness :
  execute_pipeline host_without_dir [["ls"]] false (Some "/nodir/out")
    (init_machine host_without_dir 100)
  = (inr tt,
     add_events (init_machine host_without_dir 100)
       [Stdout ("ls" ++ ": command not found" ++ newline)]).
Proof.
  apply (missing_redirect_directory_blames_command host_without_dir ["ls"]
           "ls" [] false (Some "/nodir/out") "/nodir/out"
           (init_machine host_without_dir 100)
           (Exn FileNotFoundError "[Errno 2] No such file or directory"));
    reflexivity.
Defined.

Lemma poll_spawned (w : World) (piped : bool) :
  poll (spawned_world w) {| pid := next_pid w; stdout_piped := piped |} = None.
Proof.
  unfold poll, spawned_world. cbn [pid procs].
  now rewrite get_set_Z, Z.eqb_refl.
Qed.

(** X17: A single foreground command that starts: the shell opens the
    redirect target if there is one, spawns, waits for the child, prints
    what it captured, standard output only when not redirected, and
    closes the target. No job is made and the shell is unchanged. *)
Theorem foreground_command_runs_to_completion (host : Host)
    (c : list string) (cmd : string) (args : list string)
    (redirect_file : option string) (m : Machine) (out err : string) :
  expand_aliases (aliases (shell m)) c = cmd :: args ->
  is_builtin_name cmd = false ->
  (forall path, truthy redirect_file = Some path ->
                open_error host path = None) ->
  popen_error host (cmd :: args) (current_dir (shell m)) = None ->
  stdout_data host (next_pid (world m)) = inr out ->
  stderr_data host (next_pid (world m)) = inr err ->
  let p := {| pid := next_pid (world m);
              stdout_piped := match truthy redirect_file with
                              | Some _ => false
                              | None => true
                              end |} in
  execute_pipeline host [c] false redirect_file m
  = (inr tt,
     {| shell := shell m;
        world := waited_world host (spawned_world (world m)) p;
        trace := (trace m ++ opening_events redirect_file
                    ++ [Spawned (cmd :: args) (pid p); Waited (pid p)]
                    ++ output_events redirect_file out err
                    ++ closing_events redirect_file)%list |}).
Proof.
  intros Hexp Hext Hopen Herr Hout Herrd p.
  unfold execute_pipeline, bind at 1, get_shell at 1. rewrite Hexp.
  unfold bind at 1. rewrite (execute_builtin_external host cmd args m Hext).
  unfold try_except, run_single, bind at 1, opening_events, closing_events,
    output_events.
  subst p.
  destruct (truthy redirect_file) as [path|] eqn:Htr.
  - unfold open_w. rewrite (Hopen path eq_refl).
    unfold emit at 1. unfold bind at 1. rewrite popen_spec. cbn [shell].
    rewrite Herr. unfold bind at 1, bind at 1, wait, bind at 1,
      get_world at 1, bind at 1, emit at 1.
    cbn [world]. fold (spawned_world (world m)). rewrite poll_spawned.
    cbn [bind put_world ret fst snd pid stdout_piped world shell trace].
    rewrite Herrd. unfold waited_world.
    destruct err; cbn; rewrite <- ?app_assoc; reflexivity.
  - cbn [ret]. unfold bind at 1. rewrite popen_spec, Herr.
    unfold bind at 1, bind at 1, wait, bind at 1,
      get_world at 1, bind at 1, emit at 1.
    cbn [world]. fold (spawned_world (world m)). rewrite poll_spawned.
    cbn [bind put_world ret fst snd pid stdout_piped world shell trace].
    rewrite Hout, Herrd. unfold waited_world.
    destruct out, err; cbn; rewrite <- ?app_assoc; reflexivity.
Qed.

Lemma foreground_command_runs_to_completion_witness :
  trace (snd (execute_pipeline host_without_dir [["ll"]] false None
                (init_machine host_without_dir 100)))
  = [Spawned ["ls"; "-la"] 100; Waited 100; Stdout "hello"]
  /\ trace (snd (execute_pipeline host_without_dir [["ll"]] false
                   (Some "out.txt") (init_machine host_without_dir 100)))
     = [Opened "out.txt"; Spawned ["ls"; "-la"] 100; Waited 100;
        ClosedFile "out.txt"].
Proof.
  split.
  - rewrite (foreground_command_runs_to_completion host_without_dir ["ll"]
               "ls" ["-la"] None (init_machine host_without_dir 100)
               "hello" EmptyString);
      try reflexivity.
    intros path H. discriminate H.
  - rewrite (foreground_command_runs_to_completion host_without_dir ["ll"]
               "ls" ["-la"] (Some "out.txt")
               (init_machine host_without_dir 100)
               "hello" EmptyString);
      try reflexivity.
    intros path H. injection H as <-. reflexivity.
Defined.

(** ** Leaving the shell *)

(** X10: The line [exit], unless an alias has taken the name, ends the loop
    with status 0 after the farewell line; whatever input follows is
    never read, and the line itself has been recorded in the history. *)
Theorem exit_ends_the_loop (host : Host) (rest : list env_event)
    (m : Machine) :
  Dict.get String.eqb "exit" (aliases (shell m)) = None ->
  let r := run_loop host (EvLine "exit" :: rest) m in
  fst r = Exited 0
  /\ trace (snd r) = (trace m ++ [Stdout ("Goodbye!" ++ newline)])%list
  /\ jobs (shell (snd r)) = jobs (shell m)
  /\ world (snd r) = world m.
Proof.
  intros Hal r. subst r. cbn [run_loop].
  assert (E : exists m',
             dispatch host "exit" m = (inl (Exn SystemExit "0"), m')
             /\ trace m' = (trace m ++ [Stdout ("Goodbye!" ++ newline)])%list
             /\ jobs (shell m') = jobs (shell m)
             /\ world m' = world m).
  { unfold dispatch.
    change (PyStr.strip "exit") with "exit".
    change (parse_command "exit") with ([["exit"]], false, @None string).
    cbv iota beta. unfold bind at 1.
    cbn [history_append bind get_shell put_shell fst snd].
    unfold execute_pipeline, bind at 1, get_shell at 1.
    cbn [shell aliases expand_aliases]. rewrite Hal.
    unfold bind at 1.
    change (execute_builtin host ["exit"])
      with (print "Goodbye!" ;;; @raise bool (Exn SystemExit "0")).
    eexists. split; [reflexivity|]. repeat split. }
  destruct E as (m' & -> & Ht & Hj & Hw). cbn [exn_cls fst snd].
  auto.
Qed.

Lemma exit_ends_the_loop_witness :
  let r := run_loop Demo.host [EvLine "exit"; EvLine "pwd"] Demo.start in
  fst r = Exited 0
  /\ trace (snd r) = [Stdout ("Goodbye!" ++ newline)].
Proof.
  destruct (exit_ends_the_loop Demo.host [EvLine "pwd"] Demo.start eq_refl)
    as (H1 & H2 & _).
  split; [exact H1 | exact H2].
Defined.

(** X27: An [export] of a value under the empty name ends the shell:
    the shell's own environment takes the entry, the process environment
    refuses it with [OSError], and nothing on the way up to [run] catches
    that, so the loop is left and whatever input follows is never
    read. *)
Theorem export_empty_name_ends_the_shell (host : Host) (value : string)
    (args : list string) (rest : list env_event) (m : Machine) :
  PyStr.contains (ascii_of_nat 0) value = false ->
  Dict.get String.eqb "export" (aliases (shell m)) = None ->
  let refused := Exn OSError "[Errno 22] Invalid argument" in
  handle_export (("=" ++ value) :: args) m
  = (inl refused,
     {| shell := with_environment (shell m)
                   (Dict.set String.eqb EmptyString value
                      (environment (shell m)));
        world := world m;
        trace := trace m |})
  /\ (let r := run_loop host (EvLine "export =1" :: rest) m in
      fst r = Uncaught refused
      /\ Dict.get String.eqb EmptyString (environment (shell (snd r)))
         = Some "1"
      /\ world (snd r) = world m
      /\ trace (snd r) = trace m).
Proof.
  intros Hnul Hal refused.
  assert (Hx : forall (v : string) (l : list string) (m0 : Machine),
             PyStr.contains (ascii_of_nat 0) v = false ->
             handle_export (("=" ++ v) :: l) m0
             = (inl refused,
                {| shell := with_environment (shell m0)
                              (Dict.set String.eqb EmptyString v
                                 (environment (shell m0)));
                   world := world m0;
                   trace := trace m0 |})).
  { intros v l m0 Hv. unfold handle_export. cbn [for_each].
    unfold bind at 1, bind at 1, get_shell at 1.
    change ("=" ++ v) with (EmptyString ++ String "=" v).
    destruct (split_once_assignment "=" EmptyString v eq_refl) as [Hc Hs].
    rewrite Hc, Hs. unfold putenv_error.
    change (PyStr.contains (ascii_of_nat 0) EmptyString) with false.
    rewrite Hv. reflexivity. }
  split; [now apply Hx|].
  cbn [run_loop].
  assert (E : dispatch host "export =1" m
              = (inl refused,
                 {| shell := with_environment
                               (shell (snd (history_append "export =1" m)))
                               (Dict.set String.eqb EmptyString "1"
                                  (environment (shell m)));
                    world := world m;
                    trace := trace m |})).
  { unfold dispatch.
    change (PyStr.strip "export =1") with "export =1".
    change (parse_command "export =1")
      with ([["export"; "=1"]], false, @None string).
    cbv iota beta. unfold bind at 1.
    cbn [history_append bind get_shell put_shell fst snd].
    unfold execute_pipeline, bind at 1, get_shell at 1.
    cbn [shell aliases expand_aliases]. rewrite Hal.
    unfold bind at 1.
    change (execute_builtin host ["export"; "=1"])
      with (handle_export ["=1"] ;;; @ret bool true).
    unfold bind at 1.
    change "=1" with ("=" ++ "1").
    rewrite (Hx "1" [] _ eq_refl). reflexivity. }
  rewrite E. cbn [exn_cls refused fst snd shell world trace
                    with_environment environment].
  rewrite get_set_str. repeat split.
Qed.

Lemma export_empty_name_ends_the_shell_witness :
  fst (run_loop Demo.host [EvLine "export =1"; EvLine "pwd"] Demo.start)
  = Uncaught (Exn OSError "[Errno 22] Invalid argument").
Proof.
  exact (proj1 (proj2 (export_empty_name_ends_the_shell Demo.host "1" []
                         [EvLine "pwd"] Demo.start eq_refl eq_refl))).
Defined.

(** ** The prompt *)

Lemma str_app_nil (s : string) : s ++ EmptyString = s.
Proof. induction s as [|c s IH]; simpl; [reflexivity | now rewrite IH]. Qed.

Lemma startswith_refl (s : string) : startswith s s = true.
Proof.
  induction s as [|c s IH]; simpl; [reflexivity|].
  now rewrite Ascii.eqb_refl.
Qed.

Lemma replace_from_skips (old new s : string) (k : nat) :
  (String.length s <= k)%nat -> replace_from old new k s = EmptyString.
Proof.
  revert k. induction s as [|c s IH]; intros k H; simpl; [reflexivity|].
  simpl in H. destruct k as [|k]; [lia|]. apply IH. lia.
Qed.

Lemma replace_absent (old new s : string) :
  occurs old s = false -> replace_from old new O s = s.
Proof.
  induction s as [|c s IH]; intros H; [reflexivity|].
  cbn [occurs] in H. apply orb_false_elim in H. destruct H as [H1 H2].
  cbn [replace_from]. rewrite H1. now rewrite IH.
Qed.

Lemma expanduser_home_not_empty (host : Host) (w : World) :
  expanduser_home host w <> EmptyString.
Proof.
  unfold expanduser_home.
  destruct (PyStr.rstrip_by _ _); discriminate.
Qed.

(** X26: The prompt names the user and the host from the process
    environment, with their defaults. In the home directory it shows
    [~]; in a directory whose path does not contain the home path it
    shows the path as it is. *)
Theorem prompt_shows_directory (host : Host) (w : World) :
  (cwd w = expanduser_home host w ->
   prompt host w
   = getenv w "USER" "user" ++ "@" ++ getenv w "HOSTNAME" "localhost"
       ++ ":~$ ")
  /\ (occurs (expanduser_home host w) (cwd w) = false ->
      prompt host w
      = getenv w "USER" "user" ++ "@" ++ getenv w "HOSTNAME" "localhost"
          ++ ":" ++ cwd w ++ "$ ").
Proof.
  unfold prompt, replace. split.
  - intros ->. pose proof (expanduser_home_not_empty host w) as Hne.
    destruct (expanduser_home host w) as [|c home]; [now contradiction Hne|].
    cbn [replace_from]. rewrite startswith_refl.
    rewrite replace_from_skips by (simpl; lia). reflexivity.
  - intros H. now rewrite replace_absent.
Qed.

Lemma prompt_examples :
  prompt Demo.host (world (snd (builtin_cd Demo.host [] Demo.start)))
  = "user@localhost:~$ "
  /\ prompt Demo.host (world Demo.start) = "user@localhost:/$ ".
Proof.
  split.
  - apply (proj1 (prompt_shows_directory Demo.host
                    (world (snd (builtin_cd Demo.host [] Demo.start))))).
    reflexivity.
  - apply (proj2 (prompt_shows_directory Demo.host (world Demo.start))).
    reflexivity.
Defined.

(** X7: The home directory is taken from the process environment, which
    [export] writes: after [export HOME=dir], for a [dir] without null
    byte, which the process environment would refuse, a bare [cd] asks
    the host for [dir], trailing slashes removed, and moves there when
    the host lets it. *)
Theorem export_home_redirects_cd (host : Host) (dir target : string)
    (m : Machine) :
  PyStr.contains (ascii_of_nat 0) dir = false ->
  PyStr.rstrip_by (Ascii.eqb "/") dir <> EmptyString ->
  chdir_result host (PyStr.rstrip_by (Ascii.eqb "/") dir) = inr target ->
  let m' := snd (handle_export ["HOME=" ++ dir] m) in
  expanduser_home host (world m') = PyStr.rstrip_by (Ascii.eqb "/") dir
  /\ current_dir (shell (snd (builtin_cd host [] m'))) = target
  /\ cwd (world (snd (builtin_cd host [] m'))) = target.
Proof.
  intros Hnul Hne Hc m'.
  assert (He : Dict.get String.eqb "HOME" (environ (world m')) = Some dir).
  { subst m'.
    change (handle_export ["HOME=" ++ dir] m) with
      (handle_export ["HOME" ++ "=" ++ dir] m).
    rewrite (handle_export_assignment "HOME" dir m eq_refl
               (putenv_accepts "HOME" dir eq_refl
                  ltac:(discriminate) eq_refl Hnul)).
    cbn [snd world with_environ environ].
    now rewrite get_set_str. }
  assert (Hh : expanduser_home host (world m')
               = PyStr.rstrip_by (Ascii.eqb "/") dir).
  { unfold expanduser_home. rewrite He.
    destruct (PyStr.rstrip_by (Ascii.eqb "/") dir);
      [now contradiction Hne | reflexivity]. }
  split; [exact Hh|].
  assert (E : builtin_cd host [] m'
              = builtin_cd host [PyStr.rstrip_by (Ascii.eqb "/") dir] m').
  { unfold builtin_cd, try_except, bind, get_world. rewrite Hh.
    unfold chdir. rewrite Hc. reflexivity. }
  rewrite E, (builtin_cd_success host _ target [] m' Hc).
  split; reflexivity.
Qed.

Lemma export_home_redirects_cd_witness :
  let m' := snd (handle_export ["HOME=" ++ "/srv/"] Demo.start) in
  expanduser_home Demo.host (world m') = "/srv"
  /\ current_dir (shell (snd (builtin_cd Demo.host [] m'))) = "/srv"
  /\ cwd (world (snd (builtin_cd Demo.host [] m'))) = "/srv".
Proof.
  apply (export_home_redirects_cd Demo.host "/srv/" "/srv" Demo.start).
  - reflexivity.
  - discriminate.
  - reflexivity.
Defined.

(** ** Aliases defined at the prompt *)

Lemma words_no_space (v t : string) :
  In t (PyStr.words v) -> no_space t.
Proof.
  intros H c Hc.
  destruct (words_from_tokens v EmptyString t) as [_ Hcs];
    [intros d [] | exact H |].
  exact (proj1 (Hcs c Hc)).
Qed.

Lemma expand_aliases_no_space (al : list (string * string))
    (command : list string) :
  Forall no_space command -> Forall no_space (expand_aliases al command).
Proof.
  intros H. unfold expand_aliases. destruct command as [|c rest]; [exact H|].
  destruct (Dict.get String.eqb c al) as [v|]; [|exact H].
  inversion H; subst. apply Forall_app. split; [|assumption].
  apply Forall_forall. intros t Ht. now apply (words_no_space v).
Qed.

Lemma chars_split_once_snd (sep : ascii) (s : string) (c : ascii) :
  In c (chars (snd (PyStr.split_once sep s))) -> In c (chars s).
Proof.
  induction s as [|d s IH]; simpl; [tauto|].
  destruct (Ascii.eqb d sep); simpl; [tauto|].
  destruct (PyStr.split_once sep s) as [a b]. simpl in *.
  intros H. right. now apply IH.
Qed.

Lemma handle_alias_values (args : list string) (m : Machine) (k v : string) :
  Forall no_space args ->
  Dict.get String.eqb k (aliases (shell (snd (handle_alias args m)))) = Some v ->
  Dict.get String.eqb k (aliases (shell m)) = Some v \/ no_space v.
Proof.
  intros Hargs. unfold handle_alias, bind at 1, get_shell at 1.
  destruct args as [|a args].
  - rewrite for_each_print. cbn. auto.
  - inversion Hargs as [|? ? Ha _]; subst.
    destruct (PyStr.contains "=" a).
    + destruct (PyStr.split_once "=" a) as [name value] eqn:Hs. cbn.
      rewrite get_set_str. destruct (String.eqb name k); [|auto].
      intros [= <-]. right. intros c Hc. apply Ha.
      unfold PyStr.strip_by in Hc.
      apply chars_rstrip_by, chars_lstrip_by in Hc.
      apply (chars_split_once_snd "=" a). now rewrite Hs.
    + destruct (Dict.get String.eqb a (aliases (shell m))); cbn; auto.
Qed.

Section AliasesKept.

Variable host : Host.

Lemma aliases_ignore_table : ignores_table aliases.
Proof. intros sh js c. reflexivity. Qed.

Lemma preserves_aliases_handle_export (args : list string) :
  preserves aliases (handle_export args).
Proof.
  unfold handle_export. apply preserves_for_each. intros arg m.
  unfold bind, get_shell. destruct (PyStr.contains "=" arg).
  - destruct (PyStr.split_once "=" arg) as [name value].
    destruct (putenv_error name value); reflexivity.
  - destruct (Dict.get String.eqb arg (environment (shell m))); reflexivity.
Qed.

Lemma preserves_aliases_builtin_cd (args : list string) :
  preserves aliases (builtin_cd host args).
Proof.
  unfold builtin_cd. apply preserves_try.
  - intros m. unfold bind, get_world, chdir.
    destruct (chdir_result host _); reflexivity.
  - intros e k H. destruct (exn_cls e); try discriminate H;
      injection H as <-; apply preserves_print.
Qed.

Lemma preserves_aliases_other_builtins (cmd : string) (args : list string) :
  String.eqb cmd "alias" = false ->
  preserves aliases (execute_builtin host (cmd :: args)).
Proof.
  intros Hna.
  pose proof aliases_ignore_table as Hf.
  pose proof preserves_aliases_handle_export.
  pose proof preserves_aliases_builtin_cd.
  pose proof (preserves_show_jobs aliases Hf).
  pose proof (preserves_foreground_job aliases Hf host).
  pose proof (preserves_kill_job aliases Hf host).
  pose proof (preserves_show_history_from aliases).
  unfold execute_builtin, background_job, show_history.
  rewrite Hna.
  repeat match goal with
         | |- preserves _ (if ?b then _ else _) => destruct b
         end; pres_tac.
Qed.

Lemma execute_builtin_alias_values (command : list string) (m : Machine)
    (k v : string) :
  Forall no_space command ->
  Dict.get String.eqb k
    (aliases (shell (snd (execute_builtin host command m)))) = Some v ->
  Dict.get String.eqb k (aliases (shell m)) = Some v \/ no_space v.
Proof.
  intros Hc. destruct command as [|cmd args]; [cbn; auto|].
  destruct (String.eqb_spec cmd "alias") as [->|Hne].
  - change (execute_builtin host ("alias" :: args))
      with (handle_alias args ;;; @ret bool true).
    inversion Hc; subst. unfold bind.
    pose proof (handle_alias_values args m k v) as Hv.
    destruct (handle_alias args m) as [[e|[]] m1]; cbn in *; now apply Hv.
  - rewrite (preserves_aliases_other_builtins cmd args); [auto|].
    now apply String.eqb_neq.
Qed.

Lemma execute_pipeline_single_aliases (c : list string) (background : bool)
    (redirect_file : option string) (m : Machine) :
  aliases (shell (snd (execute_pipeline host [c] background redirect_file m)))
  = aliases (shell (snd (execute_builtin host
                           (expand_aliases (aliases (shell m)) c) m))).
Proof.
  unfold execute_pipeline, bind at 1, get_shell at 1. unfold bind at 1.
  destruct (execute_builtin host _ m) as [[e|[|]] m1]; try reflexivity.
  cbn [snd].
  apply (preserves_try aliases).
  - apply preserves_run_single. apply aliases_ignore_table.
  - intros e k H. unfold is_Exception in H.
    destruct (exn_cls e); cbn in H;
      try (injection H as <-; apply preserves_print);
      discriminate H.
Qed.

End AliasesKept.

Lemma parse_is_stages (line : string) :
  exists part, fst (fst (parse_command line)) = stages part.
Proof.
  unfold parse_command. destruct (strip_background line) as [body bg].
  destruct (PyStr.contains ">" body); cbn [fst]; eexists; reflexivity.
Qed.

(** X5: Whatever line is typed, an alias that is bound afterwards is either
    bound as it was before or bound to a value without whitespace: the
    line is cut into words before [alias] sees it, so [alias ll='ls -la']
    binds [ll] to [ls] alone. *)
Theorem typed_alias_value_has_no_space (host : Host) (line : string)
    (m : Machine) (k v : string) :
  Dict.get String.eqb k (aliases (shell (snd (dispatch host line m))))
  = Some v ->
  Dict.get String.eqb k (aliases (shell m)) = Some v \/ no_space v.
Proof.
  unfold dispatch. destruct (PyStr.strip line); [cbn; auto|].
  destruct (parse_is_stages line) as (part & Hpart).
  destruct (parse_command line) as [[commands background] redirect_file].
  cbn [fst] in Hpart. subst commands.
  unfold bind at 1. cbn [history_append bind get_shell put_shell fst snd].
  set (m1 := {| shell := _; world := world m; trace := trace m |}).
  assert (Ha : aliases (shell m1) = aliases (shell m)) by reflexivity.
  rewrite <- Ha.
  destruct (stages part) as [|c [|c' rest]] eqn:Hst.
  - change (execute_pipeline host [] background redirect_file)
      with (execute_pipeline_chain host [] background redirect_file).
    rewrite (preserves_execute_pipeline_chain aliases
               (aliases_ignore_table) host [] background redirect_file m1).
    auto.
  - rewrite execute_pipeline_single_aliases.
    apply execute_builtin_alias_values.
    apply expand_aliases_no_space. apply Forall_forall. intros t Ht.
    intros ch Hch.
    refine (proj1 (proj2 (stages_tokens part c t _ Ht) ch Hch)).
    rewrite Hst. now left.
  - change (execute_pipeline host (c :: c' :: rest) background redirect_file)
      with (execute_pipeline_chain host (c :: c' :: rest) background
              redirect_file).
    rewrite (preserves_execute_pipeline_chain aliases
               (aliases_ignore_table) host _ background redirect_file m1).
    auto.
Qed.

Lemma typed_alias_value_has_no_space_witness :
  Dict.get String.eqb "ll"
    (aliases (shell (snd (dispatch Demo.host "alias ll='ls -la'" Demo.start))))
  = Some "ls"
  /\ (Dict.get String.eqb "ll" (aliases (shell Demo.start)) = Some "ls"
      \/ no_space "ls").
Proof.
  split; [reflexivity|].
  apply (typed_alias_value_has_no_space Demo.host "alias ll='ls -la'"
           Demo.start "ll" "ls").
  reflexivity.
Defined.

(** ** Foreground pipelines *)






(** ** Ids over a whole session *)

Section Steps.

Variable R : UnixShell -> UnixShell -> Prop.
Hypothesis R_refl : forall sh, R sh sh.
Hypothesis R_trans : forall a b c, R a b -> R b c -> R a c.
Hypothesis R_del :
  forall sh jid, R sh (with_jobs sh (Dict.del Z.eqb jid (jobs sh))).
Hypothesis R_register :
  forall sh job,
    R sh {| jobs := Dict.set Z.eqb (job_counter sh) job (jobs sh);
            job_counter := job_counter sh + 1;
            history := history sh; aliases := aliases sh;
            environment := environment sh; current_dir := current_dir sh |}.
Hypothesis R_settings :
  forall sh h a e d,
    R sh {| jobs := jobs sh; job_counter := job_counter sh;
            history := h; aliases := a; environment := e; current_dir := d |}.

Lemma steps_ret {A} (a : A) : steps R (ret a).
Proof. intros m. apply R_refl. Qed.

Lemma steps_raise {A} (e : exn) : steps R (@raise A e).
Proof. intros m. apply R_refl. Qed.

Lemma steps_bind {A B} (c : M A) (k : A -> M B) :
  steps R c -> (forall a, steps R (k a)) -> steps R (bind c k).
Proof.
  intros Hc Hk m. unfold bind. specialize (Hc m).
  destruct (c m) as [[e|a] m1]; simpl in Hc; [exact Hc|].
  exact (R_trans _ _ _ Hc (Hk a m1)).
Qed.

Lemma steps_try {A} (c : M A) (h : exn -> option (M A)) :
  steps R c -> (forall e k, h e = Some k -> steps R k) ->
  steps R (try_except c h).
Proof.
  intros Hc Hh m. unfold try_except. specialize (Hc m).
  destruct (c m) as [[e|a] m1]; simpl in Hc; [|exact Hc].
  destruct (h e) as [k|] eqn:E; [|exact Hc].
  exact (R_trans _ _ _ Hc (Hh e k E m1)).
Qed.

Lemma steps_for_each {A} (l : list A) (body : A -> M unit) :
  (forall x, steps R (body x)) -> steps R (for_each l body).
Proof.
  intros H. induction l as [|x l IH]; simpl.
  - apply steps_ret.
  - apply steps_bind; [apply H | intros _; exact IH].
Qed.

Lemma steps_get_shell : steps R get_shell.
Proof. intros m. apply R_refl. Qed.

Lemma steps_get_world : steps R get_world.
Proof. intros m. apply R_refl. Qed.

Lemma steps_put_world (w : World) : steps R (put_world w).
Proof. intros m. apply R_refl. Qed.

Lemma steps_emit (ev : event) : steps R (emit ev).
Proof. intros m. apply R_refl. Qed.

Lemma steps_print (s : string) : steps R (print s).
Proof. intros m. apply R_refl. Qed.

Lemma steps_del_job (jid : Z) : steps R (del_job jid).
Proof. intros m. apply R_del. Qed.

Lemma steps_register (label : string) (p : Popen) :
  steps R (register label p).
Proof. intros m. rewrite register_effect. apply R_register. Qed.

End Steps.

Create HintDb steps.

#[local] Hint Resolve steps_ret steps_raise steps_get_shell steps_get_world
  steps_put_world steps_emit steps_print steps_del_job steps_register
  : steps.

Ltac steps_step :=
  match goal with
  | |- steps _ (bind _ _) => apply steps_bind; [assumption | |intros ?]
  | |- steps _ (try_except _ _) => apply steps_try; [assumption | |intros ? ? ?]
  | |- steps _ (for_each _ _) =>
      apply steps_for_each; [assumption | assumption | intros ?]
  | |- steps _ (match ?x with _ => _ end) => destruct x eqn:?
  | |- steps _ _ => solve [auto with steps]
  | H : match ?x with _ => _ end = Some _ |- _ => destruct x; try discriminate H
  | H : Some _ = Some _ |- _ => injection H as <-
  end.

Ltac steps_tac := repeat steps_step.

Section SessionSteps.

Variable R : UnixShell -> UnixShell -> Prop.
Hypothesis R_refl : forall sh, R sh sh.
Hypothesis R_trans : forall a b c, R a b -> R b c -> R a c.
Hypothesis R_del :
  forall sh jid, R sh (with_jobs sh (Dict.del Z.eqb jid (jobs sh))).
Hypothesis R_register :
  forall sh job,
    R sh {| jobs := Dict.set Z.eqb (job_counter sh) job (jobs sh);
            job_counter := job_counter sh + 1;
            history := history sh; aliases := aliases sh;
            environment := environment sh; current_dir := current_dir sh |}.
Hypothesis R_settings :
  forall sh h a e d,
    R sh {| jobs := jobs sh; job_counter := job_counter sh;
            history := h; aliases := a; environment := e; current_dir := d |}.
Variable host : Host.

Lemma steps_popen (argv : list string) (piped : bool) :
  steps R (popen host argv piped).
Proof.
  intros m. rewrite popen_spec. destruct argv; [apply R_refl|].
  destruct (popen_error host _ _); apply R_refl.
Qed.

Lemma steps_wait (p : Popen) : steps R (wait host p).
Proof. unfold wait. steps_tac. Qed.

Lemma steps_os_kill (n : Z) : steps R (os_kill host n).
Proof. unfold os_kill. steps_tac. Qed.

Lemma steps_terminate (p : Popen) : steps R (terminate host p).
Proof. unfold terminate. steps_tac. apply steps_os_kill. Qed.

Lemma steps_open_w (path : string) : steps R (open_w host path).
Proof. unfold open_w. steps_tac. Qed.

Hint Resolve steps_popen steps_wait steps_os_kill steps_terminate
  steps_open_w : steps.

Lemma steps_show_jobs : steps R show_jobs.
Proof. unfold show_jobs. steps_tac. Qed.

Lemma steps_foreground_job (args : list string) :
  steps R (foreground_job host args).
Proof. unfold foreground_job. steps_tac. Qed.

Lemma steps_kill_job (args : list string) : steps R (kill_job host args).
Proof. unfold kill_job. steps_tac. Qed.

Lemma steps_show_history_from (h : list string) (i : Z) :
  steps R (show_history_from i h).
Proof. revert i. induction h as [|cmd h IH]; intros i; simpl; steps_tac. Qed.

Lemma steps_handle_alias (args : list string) : steps R (handle_alias args).
Proof.
  intros m. unfold handle_alias, bind at 1, get_shell at 1.
  destruct args as [|a args].
  - rewrite for_each_print. apply R_refl.
  - destruct (PyStr.contains "=" a).
    + destruct (PyStr.split_once "=" a). apply R_settings.
    + destruct (Dict.get String.eqb a (aliases (shell m))); apply R_refl.
Qed.

Lemma steps_handle_export (args : list string) : steps R (handle_export args).
Proof.
  unfold handle_export. apply steps_for_each; [assumption | assumption|].
  intros arg m. unfold bind, get_shell. destruct (PyStr.contains "=" arg).
  - destruct (PyStr.split_once "=" arg) as [name value].
    destruct (putenv_error name value); cbn; apply (R_settings (shell m)).
  - destruct (Dict.get String.eqb arg (environment (shell m))); apply R_refl.
Qed.

Lemma steps_builtin_cd (args : list string) : steps R (builtin_cd host args).
Proof.
  unfold builtin_cd. apply steps_try; [assumption | |].
  - intros m. unfold bind, get_world, chdir.
    destruct (chdir_result host _);
      [apply R_refl | cbn; apply (R_settings (shell m))].
  - intros e k H. destruct (exn_cls e); try discriminate H;
      injection H as <-; now apply steps_print.
Qed.

Hint Resolve steps_show_jobs steps_foreground_job steps_kill_job
  steps_show_history_from steps_handle_alias steps_handle_export
  steps_builtin_cd : steps.

Lemma steps_execute_builtin (command : list string) :
  steps R (execute_builtin host command).
Proof.
  unfold execute_builtin, background_job, show_history.
  destruct command as [|cmd args]; [now apply steps_ret|].
  repeat match goal with
         | |- steps _ (if ?b then _ else _) => destruct b
         end; steps_tac.
Qed.

Lemma steps_emit_captured (to_stderr : bool) (d : exn + string) :
  steps R (emit_captured to_stderr d).
Proof.
  unfold emit_captured, decoded, print_raw, eprint_raw.
  destruct d as [e|[|c s]]; steps_tac.
Qed.

Hint Resolve steps_execute_builtin steps_emit_captured : steps.

Lemma steps_run_single (command : list string) (background : bool)
    (redirect_file : option string) :
  steps R (run_single host command background redirect_file).
Proof. unfold run_single. steps_tac. Qed.

Lemma steps_spawn_stages (commands : list (list string)) (n i : nat)
    (r : option string) (ps : list Popen) :
  steps R (spawn_stages host n i commands r ps).
Proof.
  intros m.
  destruct (spawn_stages_frame host commands n i r ps m) as [Hs _ _ _].
  rewrite Hs. apply R_refl.
Qed.

Hint Resolve steps_run_single steps_spawn_stages : steps.

Lemma steps_execute_pipeline_chain (commands : list (list string))
    (background : bool) (redirect_file : option string) :
  steps R (execute_pipeline_chain host commands background redirect_file).
Proof. unfold execute_pipeline_chain. steps_tac. Qed.

Hint Resolve steps_execute_pipeline_chain : steps.

Lemma steps_execute_pipeline (commands : list (list string))
    (background : bool) (redirect_file : option string) :
  steps R (execute_pipeline host commands background redirect_file).
Proof. unfold execute_pipeline. steps_tac. Qed.

Lemma steps_history_append (line : string) : steps R (history_append line).
Proof. intros m. apply R_settings. Qed.

Lemma steps_reap_finished : steps R reap_finished.
Proof. unfold reap_finished. steps_tac. Qed.

Hint Resolve steps_execute_pipeline steps_history_append
  steps_reap_finished : steps.

Lemma steps_dispatch (line : string) : steps R (dispatch host line).
Proof.
  unfold dispatch. destruct (PyStr.strip line); [now apply steps_ret|].
  destruct (parse_command line) as [[commands background] redirect_file].
  steps_tac.
Qed.

Lemma run_loop_steps (input : list env_event) (m : Machine) :
  R (shell m) (shell (snd (run_loop host input m))).
Proof.
  revert m. induction input as [|ev input IH]; intros m.
  - apply R_refl.
  - destruct ev as [line | | p rc]; cbn [run_loop].
    + pose proof (steps_dispatch line m) as Hd.
      destruct (dispatch host line m) as [[e|[]] m1]; simpl in Hd.
      * destruct (exn_cls e); try exact Hd;
          try (eapply R_trans; [exact Hd|]; apply R_refl).
        eapply R_trans; [exact Hd|].
        eapply R_trans; [|apply IH]. match goal with
        | |- R _ (shell (snd (reap_finished ?x))) =>
            exact (steps_reap_finished x)
        end.
      * eapply R_trans; [exact Hd|].
        eapply R_trans; [|apply IH]. match goal with
        | |- R _ (shell (snd (reap_finished ?x))) =>
            exact (steps_reap_finished x)
        end.
    + eapply R_trans; [|apply IH]. match goal with
        | |- R _ (shell (snd (reap_finished ?x))) =>
            exact (steps_reap_finished x)
        end.
    + eapply R_trans; [|apply IH]. rewrite child_exit_shell. apply R_refl.
Qed.

End SessionSteps.

Lemma moves_refl (sh : UnixShell) : table_moves_on sh sh.
Proof. intros H. split; [exact H|]. split; [lia | auto]. Qed.

Lemma moves_trans (a b c : UnixShell) :
  table_moves_on a b -> table_moves_on b c -> table_moves_on a c.
Proof.
  intros Hab Hbc Ha. destruct (Hab Ha) as (Hb & Hc1 & Hk1).
  destruct (Hbc Hb) as (Hc & Hc2 & Hk2).
  split; [exact Hc|]. split; [lia|].
  intros k Hk. destruct (Hk2 k Hk) as [H|H]; [|right; lia].
  destruct (Hk1 k H); [now left | right; lia].
Qed.

Lemma moves_del (sh : UnixShell) (jid : Z) :
  table_moves_on sh (with_jobs sh (Dict.del Z.eqb jid (jobs sh))).
Proof.
  intros [Hs Hb]. cbn. split; [|split; [lia|]].
  - split; [now apply sorted_del|].
    rewrite Forall_forall in *. intros k Hk. apply Hb.
    exact (keys_del jid _ k Hk).
  - intros k Hk. left. exact (keys_del jid _ k Hk).
Qed.

Lemma moves_register (sh : UnixShell) (job : Job) :
  table_moves_on sh
    {| jobs := Dict.set Z.eqb (job_counter sh) job (jobs sh);
       job_counter := job_counter sh + 1;
       history := history sh; aliases := aliases sh;
       environment := environment sh; current_dir := current_dir sh |}.
Proof.
  intros [Hs Hb]. cbn. rewrite set_fresh by exact Hb.
  unfold table_ok, Dict.keys. cbn. rewrite map_app. cbn.
  split; [split|split; [lia|]].
  - now apply sorted_snoc.
  - apply Forall_app. split.
    + eapply Forall_impl; [|exact Hb]. cbn. intros; lia.
    + repeat constructor. lia.
  - intros k Hk. apply in_app_or in Hk.
    destruct Hk as [Hk|[<-|[]]]; [now left | right; lia].
Qed.

Lemma moves_settings (sh : UnixShell) (h : list string)
    (a e : list (string * string)) (d : string) :
  table_moves_on sh
    {| jobs := jobs sh; job_counter := job_counter sh;
       history := h; aliases := a; environment := e; current_dir := d |}.
Proof. intros H. split; [exact H|]. split; [cbn; lia | cbn; auto]. Qed.

(** X24: Over any stretch of a session, whatever is typed and whatever the
    children do: an id that has been handed out and is no longer in the
    table never comes back, and the counter never goes down. *)
Theorem removed_id_never_returns (host : Host) (input : list env_event)
    (m : Machine) (k : Z) :
  table_ok (shell m) ->
  k < job_counter (shell m) ->
  ~ In k (Dict.keys (jobs (shell m))) ->
  let m' := snd (run_loop host input m) in
  ~ In k (Dict.keys (jobs (shell m')))
  /\ job_counter (shell m) <= job_counter (shell m').
Proof.
  intros Hok Hk Hout m'.
  destruct (run_loop_steps table_moves_on moves_refl moves_trans moves_del
              moves_register moves_settings host input m Hok)
    as (_ & Hc & Hkeys).
  split; [|exact Hc].
  intros Hin. destruct (Hkeys k Hin) as [H|H]; [now apply Hout | lia].
Qed.

Lemma removed_id_never_returns_witness :
  let m := snd (dispatch Demo.host "kill 1"
                  (snd (dispatch Demo.host "sleep 5 &" Demo.start))) in
  let m' := snd (run_loop Demo.host
                   [EvLine "sleep 1 &"; EvLine "ls | wc &"; EvLine "fg"] m) in
  jobs (shell m) = []
  /\ job_counter (shell m) = 2
  /\ ~ In 1 (Dict.keys (jobs (shell m')))
  /\ job_counter (shell m) <= job_counter (shell m').
Proof.
  intros m m'. split; [reflexivity|]. split; [reflexivity|].
  apply (removed_id_never_returns Demo.host
           [EvLine "sleep 1 &"; EvLine "ls | wc &"; EvLine "fg"] m 1).
  - split; constructor.
  - reflexivity.
  - intros [].
Defined.
